(** * convert_to_pdf.py: Mermaid blocks of a markdown document to images

    A shallow embedding of [temp/convert_to_pdf.py] and the properties of
    its four stages (extractor, materializer, renderer invoker,
    substituter) and of [main].

    Modelling choices.
    - A Python [str] is a list of Unicode code points, each an [N].
    - [re.findall] with the one pattern of the script is a leftmost search,
      repeated on what follows each match.
    - The file system is a finite map from path to text; [open(p, 'w')]
      followed by [write] binds [p] to the text written.
    - [subprocess.run] is a parameter: it sees its argument vector, the
      file system and a state of the outside world, and either completes
      with a return code and a diagnostic text, exceeds its wait time, or
      raises another exception.
    - [print] appends a line to the console.
    - Writing a file and printing do not fail; reading the input file
      fails when the path is not bound. *)

From Stdlib Require Import ZArith NArith Lia DecimalString DecimalNat.
From stdpp Require Import strings list gmap.

Local Open Scope N_scope.
Local Open Scope nat_scope.

Abbreviation str := (list N).

(** ** Strings *)

(** A literal of the script whose characters are all ASCII. *)
Definition lit (s : string) : str :=
  Ascii.N_of_ascii <$> String.list_ascii_of_string s.

Definition NL : N := 10%N.

(** [s[len(p):]] when [s.startswith(p)]. *)
Fixpoint strip_prefix (p s : str) : option str :=
  match p, s with
  | [], _ => Some s
  | a :: p', b :: s' => if (a =? b)%N then strip_prefix p' s' else None
  | _ :: _, [] => None
  end.

(** The text before and after the leftmost occurrence of [pat] in [s]
    ([str.partition], [str.find]). *)
Fixpoint split_first (pat s : str) : option (str * str) :=
  match strip_prefix pat s with
  | Some rest => Some ([], rest)
  | None =>
      match s with
      | [] => None
      | c :: s' =>
          match split_first pat s' with
          | Some (a, b) => Some (c :: a, b)
          | None => None
          end
      end
  end.

(** [s.replace('', new, count)]: [new] goes before each of the first
    [count] characters, and at the end when the characters run out. *)
Fixpoint replace_empty (new : str) (count : Z) (s : str) : str :=
  if (count =? 0)%Z then s
  else match s with
       | [] => new
       | c :: s' => new ++ c :: replace_empty new (count - 1) s'
       end.

Fixpoint replace_fuel (fuel : nat) (old new : str) (count : Z) (s : str) : str :=
  match fuel with
  | 0 => s
  | S f =>
      if (count =? 0)%Z then s
      else match split_first old s with
           | Some (a, b) => a ++ new ++ replace_fuel f old new (count - 1) b
           | None => s
           end
  end.

(** [s.replace(old, new, count)]; a negative [count] (Python's default is
    [-1]) replaces every occurrence, left to right, without overlap. *)
Definition replace (old new : str) (count : Z) (s : str) : str :=
  match old with
  | [] => replace_empty new count s
  | _ :: _ => replace_fuel (S (length s)) old new count s
  end.

(** [str(n)] for a non-negative integer, as an f-string field prints it. *)
Definition str_of_nat (n : nat) : str :=
  lit (NilEmpty.string_of_uint (Nat.to_uint n)).

(** [str.isspace] of one character. *)
Definition isspace (c : N) : bool :=
  match c with
  | 9 | 10 | 11 | 12 | 13 | 28 | 29 | 30 | 31 | 32 | 133 | 160
  | 5760 | 8192 | 8193 | 8194 | 8195 | 8196 | 8197 | 8198 | 8199
  | 8200 | 8201 | 8202 | 8232 | 8233 | 8239 | 8287 | 12288 => true
  | _ => false
  end%N.

Fixpoint lstrip (s : str) : str :=
  match s with
  | [] => []
  | c :: s' => if isspace c then lstrip s' else s
  end.

Definition rstrip (s : str) : str := rev (lstrip (rev s)).

(** [s.strip()] *)
Definition strip (s : str) : str := rstrip (lstrip s).

(** ** The extractor *)

(** The two literal parts of the pattern [```mermaid\n(.*?)\n```]. *)
Definition fence_open : str := lit "```mermaid" ++ [NL].
Definition fence_close : str := NL :: lit "```".

(** The leftmost match of the pattern in [s]: the text before the match,
    group 1, and the text after the match.  At a position where the
    opening fence is read, the lazy [.*?] under [re.DOTALL] stops at the
    first closing fence that follows; when there is none the search moves
    on by one character. *)
Fixpoint re_search (s : str) : option (str * str * str) :=
  match
    match strip_prefix fence_open s with
    | Some after =>
        match split_first fence_close after with
        | Some (body, rest) => Some ([], body, rest)
        | None => None
        end
    | None => None
    end
  with
  | Some m => Some m
  | None =>
      match s with
      | [] => None
      | c :: s' =>
          match re_search s' with
          | Some (pre, body, rest) => Some (c :: pre, body, rest)
          | None => None
          end
      end
  end.

(** [re.findall]: group 1 of each match, the search resuming where the
    previous match ended. *)
Fixpoint re_findall_fuel (fuel : nat) (s : str) : list str :=
  match fuel with
  | 0 => []
  | S f =>
      match re_search s with
      | Some (_, body, rest) => body :: re_findall_fuel f rest
      | None => []
      end
  end.

Definition extract_mermaid_diagrams (markdown_content : str) : list str :=
  re_findall_fuel (length markdown_content) markdown_content.

(** ** The substituter *)

(** [f"```mermaid\n{diagram}\n```"] *)
Definition mermaid_block (diagram : str) : str :=
  lit "```mermaid" ++ [NL] ++ diagram ++ [NL] ++ lit "```".

(** [f"![Diagram {i+1}]({image_files[i]})"] *)
Definition image_ref (i : nat) (image : str) : str :=
  lit "![Diagram " ++ str_of_nat (i + 1) ++ lit "](" ++ image ++ lit ")".

(** The loop over [enumerate(diagrams)], from index [i] on;
    [image_files !! i] is [Some image_files[i]] exactly when
    [i < len(image_files)]. *)
Fixpoint enhance_loop (i : nat) (diagrams : list str) (image_files : list str)
    (enhanced_content : str) : str :=
  match diagrams with
  | [] => enhanced_content
  | diagram :: diagrams' =>
      enhance_loop (S i) diagrams' image_files
        (match image_files !! i with
         | Some image => replace (mermaid_block diagram) (image_ref i image) 1 enhanced_content
         | None => enhanced_content
         end)
  end.

Definition create_enhanced_markdown (original_content : str) (image_files : list str) : str :=
  enhance_loop 0 (extract_mermaid_diagrams original_content) image_files original_content.

(** ** The file system, the console and the external renderer *)

(** How a call of [subprocess.run] ends: the process exits, the wait
    time is exceeded, or another exception is raised. *)
Inductive run_outcome :=
| Completed (returncode : Z) (stderr : str)
| TimeoutExpired
| OtherError (e : str).

Definition exited_zero (r : run_outcome) : bool :=
  match r with
  | Completed returncode _ => (returncode =? 0)%Z
  | _ => false
  end.

Record State (World : Type) := mkState {
  files : gmap str str;
  console : list str;
  world : World
}.
Arguments mkState {World}.
Arguments files {World}.
Arguments console {World}.
Arguments world {World}.

Definition print {World} (line : str) (st : State World) : State World :=
  mkState (files st) (console st ++ [line]) (world st).

(** [with open(filename, 'w') as f: f.write(text)] *)
Definition write_file {World} (filename text : str) (st : State World) : State World :=
  mkState (<[filename := text]> (files st)) (console st) (world st).

(** [f"/tmp/diagram_{k}.mmd"] and the image path derived from it. *)
Definition mmd_name (k : nat) : str := lit "/tmp/diagram_" ++ str_of_nat k ++ lit ".mmd".
Definition png_name (k : nat) : str := lit "/tmp/diagram_" ++ str_of_nat k ++ lit ".png".

(** ** The materializer *)

Fixpoint create_mermaid_files_loop {World} (i : nat) (diagrams diagram_files : list str)
    (st : State World) : list str * State World :=
  match diagrams with
  | [] => (diagram_files, st)
  | diagram :: diagrams' =>
      let filename := lit "/tmp/diagram_" ++ str_of_nat (i + 1) ++ lit ".mmd" in
      let st' := write_file filename (strip diagram) st in
      create_mermaid_files_loop (S i) diagrams' (diagram_files ++ [filename]) st'
  end.

Definition create_mermaid_files {World} (diagrams : list str) (st : State World)
    : list str * State World :=
  create_mermaid_files_loop 0 diagrams [] st.

(** ** The renderer invoker and the script *)

Section Renderer.
Context {World : Type}.

(** [subprocess.run(argv, capture_output=True, text=True, timeout=30)] *)
Variable subprocess_run :
  list str -> gmap str str -> World -> run_outcome * gmap str str * World.

Definition mmdc_argv (mmd_file png_file : str) : list str :=
  [lit "mmdc"; lit "-i"; mmd_file; lit "-o"; png_file;
   lit "--backgroundColor"; lit "white"; lit "--theme"; lit "default"].

(** One turn of the loop: the state after the call, and its outcome. *)
Definition invoke (mmd_file : str) (st : State World) : run_outcome * State World :=
  let png_file := replace (lit ".mmd") (lit ".png") (-1) mmd_file in
  let '(r, fs, w) := subprocess_run (mmdc_argv mmd_file png_file) (files st) (world st) in
  (r, mkState fs (console st) w).

Fixpoint convert_loop (diagram_files image_files : list str) (st : State World)
    : list str * State World :=
  match diagram_files with
  | [] => (image_files, st)
  | mmd_file :: diagram_files' =>
      let png_file := replace (lit ".mmd") (lit ".png") (-1) mmd_file in
      let (result, st1) := invoke mmd_file st in
      match result with
      | Completed returncode stderr =>
          if (returncode =? 0)%Z then
            convert_loop diagram_files' (image_files ++ [png_file])
              (print ([10003%N] ++ lit " Created " ++ png_file) st1)
          else
            convert_loop diagram_files' image_files
              (print ([10007%N] ++ lit " Failed to create " ++ png_file ++ lit ": " ++ stderr) st1)
      | TimeoutExpired =>
          convert_loop diagram_files' image_files
            (print ([10007%N] ++ lit " Timeout converting " ++ mmd_file) st1)
      | OtherError e =>
          convert_loop diagram_files' image_files
            (print ([10007%N] ++ lit " Error converting " ++ mmd_file ++ lit ": " ++ e) st1)
      end
  end.

Definition convert_diagrams_to_images (diagram_files : list str) (st : State World)
    : list str * State World :=
  convert_loop diagram_files [] st.

(** The notice printed for a source file and the outcome of its call. *)
Definition notice (mmd_file : str) (r : run_outcome) : str :=
  let png_file := replace (lit ".mmd") (lit ".png") (-1) mmd_file in
  match r with
  | Completed returncode stderr =>
      if (returncode =? 0)%Z then [10003%N] ++ lit " Created " ++ png_file
      else [10007%N] ++ lit " Failed to create " ++ png_file ++ lit ": " ++ stderr
  | TimeoutExpired => [10007%N] ++ lit " Timeout converting " ++ mmd_file
  | OtherError e => [10007%N] ++ lit " Error converting " ++ mmd_file ++ lit ": " ++ e
  end.

(** The outcomes of the calls made for [diagram_files], in order. *)
Fixpoint outcomes (diagram_files : list str) (st : State World) : list run_outcome :=
  match diagram_files with
  | [] => []
  | mmd_file :: diagram_files' =>
      let (result, st1) := invoke mmd_file st in
      result :: outcomes diagram_files' (print (notice mmd_file result) st1)
  end.

(** ** The script *)

Definition input_file : str := lit "/home/reece/castbot/00-DEL-HigherEd.md".
Definition enhanced_file : str := lit "/tmp/00-DEL-HigherEd-enhanced.md".

Fixpoint list_created (image_files : list str) (st : State World) : State World :=
  match image_files with
  | [] => st
  | img :: image_files' =>
      list_created image_files'
        (match files st !! img with
         | Some _ => print (lit "   " ++ [8226%N] ++ lit " " ++ img) st
         | None => st
         end)
  end.

(** The state in which the renderer invoker starts, and its input. *)
Definition main_materialized (content : str) (st : State World) : list str * State World :=
  let st := print ([128202%N] ++ lit " Extracting Mermaid diagrams...") st in
  let diagrams := extract_mermaid_diagrams content in
  let st := print (lit "Found " ++ str_of_nat (length diagrams) ++ lit " diagrams") st in
  let st := print ([128193%N] ++ lit " Creating Mermaid files...") st in
  let (diagram_files, st) := create_mermaid_files diagrams st in
  let st := print ([128444%N; 65039%N] ++ lit "  Converting diagrams to images...") st in
  (diagram_files, st).

(** [main]; [None] when [open(input_file, 'r')] raises. *)
Definition main (st : State World) : option (State World) :=
  match files st !! input_file with
  | None => None
  | Some content =>
      let (diagram_files, st) := main_materialized content st in
      let (image_files, st) := convert_diagrams_to_images diagram_files st in
      let st := print ([128221%N] ++ lit " Creating enhanced markdown...") st in
      let enhanced_content := create_enhanced_markdown content image_files in
      let st := write_file enhanced_file enhanced_content st in
      let st := print ([10003%N] ++ lit " Enhanced markdown saved to: " ++ enhanced_file) st in
      let st := print ([10003%N] ++ lit " Diagram images saved to: /tmp/diagram_*.png") st in
      let st := print ([NL; 128194%N] ++ lit " Created files:") st in
      let st := list_created image_files st in
      let st := print ([NL; 128214%N] ++ lit " To convert to PDF, you can use:") st in
      let st := print (lit "   pandoc " ++ enhanced_file ++ lit " -o /tmp/HigherEd-Taxonomy.pdf") st in
      let st := print (lit "   or any markdown to PDF converter") st in
      Some st
  end.

(** The outcomes of the render calls of a run of [main]. *)
Definition main_outcomes (st : State World) : list run_outcome :=
  match files st !! input_file with
  | None => []
  | Some content =>
      let (diagram_files, st) := main_materialized content st in
      outcomes diagram_files st
  end.

End Renderer.

(** ** Notions used to state the properties *)

(** [pat] does not start at any of the first [n] positions of [s]. *)
Definition absent_before (pat : str) (n : nat) (s : str) : Prop :=
  forall k, k < n -> strip_prefix pat (drop k s) = None.

(** The text before each match with the body of the match, and the text
    after the last match (what [re.split] returns for the pattern). *)
Fixpoint sections_fuel (fuel : nat) (s : str) : list (str * str) * str :=
  match fuel with
  | 0 => ([], s)
  | S f =>
      match re_search s with
      | Some (pre, body, rest) =>
          let (segs, tail) := sections_fuel f rest in ((pre, body) :: segs, tail)
      | None => ([], s)
      end
  end.

Definition sections (s : str) : list (str * str) * str :=
  sections_fuel (length s) s.

(** The sections put together again, with [mid i body] in the place of
    block number [i]. *)
Fixpoint weave (mid : nat -> str -> str) (i : nat) (segs : list (str * str)) (tail : str) : str :=
  match segs with
  | [] => tail
  | (pre, body) :: segs' => pre ++ mid i body ++ weave mid (S i) segs' tail
  end.

Definition keep_block (i : nat) (body : str) : str := mermaid_block body.

Definition put_image (image_files : list str) (i : nat) (body : str) : str :=
  match image_files !! i with
  | Some image => image_ref i image
  | None => mermaid_block body
  end.

Definition backtick : N := 96%N.

(** The character [c0] does not occur in [s]. *)
Definition lacks (c0 : N) (s : str) : bool := forallb (fun c => negb (c =? c0)%N) s.

(** A path without a backtick. *)
Definition plain (s : str) : bool := lacks backtick s.

(** No opening fence starts inside [X], whatever follows [X]. *)
Definition inert (X : str) : Prop :=
  forall Y, absent_before fence_open (length X) (X ++ Y).


(** The image paths of the calls that exited with status zero. *)
Fixpoint rendered (diagram_files : list str) (rs : list run_outcome) : list str :=
  match diagram_files, rs with
  | mmd_file :: diagram_files', r :: rs' =>
      if exited_zero r
      then replace (lit ".mmd") (lit ".png") (-1) mmd_file :: rendered diagram_files' rs'
      else rendered diagram_files' rs'
  | _, _ => []
  end.

(** [t] is [d] without its leading and trailing whitespace. *)
Definition stripped_of (d t : str) : Prop :=
  exists l r, d = l ++ t ++ r
    /\ forallb isspace l = true /\ forallb isspace r = true
    /\ (forall c t', t = c :: t' -> isspace c = false)
    /\ (forall c t', t = t' ++ [c] -> isspace c = false).

(** The 1-based ordinals, counted from [k], of the calls that exited
    with status zero. *)
Fixpoint succeeded_from (k : nat) (rs : list run_outcome) : list nat :=
  match rs with
  | [] => []
  | r :: rs' =>
      if exited_zero r then k :: succeeded_from (S k) rs' else succeeded_from (S k) rs'
  end.

(** The line [main] prints for an image file that exists. *)
Definition created_line (img : str) : str := lit "   " ++ [8226%N] ++ lit " " ++ img.

(** The calls of the renderer for [diagram_files], one after the other,
    from the file system [fs] and the world [w]: the outcome of each
    call, and the file system and the world after the last one. *)
Fixpoint renderer_calls {World : Type}
    (subprocess_run : list str -> gmap str str -> World -> run_outcome * gmap str str * World)
    (diagram_files : list str) (fs : gmap str str) (w : World)
    : list run_outcome * gmap str str * World :=
  match diagram_files with
  | [] => ([], fs, w)
  | mmd_file :: diagram_files' =>
      let '(r, fs1, w1) :=
        subprocess_run
          [lit "mmdc"; lit "-i"; mmd_file;
           lit "-o"; replace (lit ".mmd") (lit ".png") (-1) mmd_file;
           lit "--backgroundColor"; lit "white"; lit "--theme"; lit "default"]
          fs w in
      let '(rs, fs', w') := renderer_calls subprocess_run diagram_files' fs1 w1 in
      (r :: rs, fs', w')
  end.

(** A document put together from its fenced blocks and the text around
    them, said without the extractor: the text before a block holds no
    opening fence, the body of a block holds no closing fence, and the
    text after the last block holds no fenced block. *)
Inductive assembled : list (str * str) -> str -> str -> Prop :=
| assembled_tail tail :
    (forall a body b, tail <> a ++ fence_open ++ body ++ fence_close ++ b) ->
    assembled [] tail tail
| assembled_block pre body segs tail rest :
    (forall a b, pre <> a ++ fence_open ++ b) ->
    (forall a b, body <> a ++ fence_close ++ b) ->
    assembled segs tail rest ->
    assembled ((pre, body) :: segs) tail
      (pre ++ fence_open ++ body ++ fence_close ++ rest).

(** The number of positions of [s] at which [pat] starts. *)
Fixpoint count_starts (pat s : str) : nat :=
  (match strip_prefix pat s with Some _ => 1 | None => 0 end)
  + match s with
    | [] => 0
    | _ :: s' => count_starts pat s'
    end.

(** The start of a markdown image reference. *)
Definition image_mark : str := lit "![".

(** The image references in the text outside the blocks. *)
Fixpoint count_outside (segs : list (str * str)) (tail : str) : nat :=
  match segs with
  | [] => count_starts image_mark tail
  | (pre, _) :: segs' => count_starts image_mark pre + count_outside segs' tail
  end.

(** ** Sample documents, renderers and states *)

(** A renderer that always succeeds and writes its output file. *)
Definition render_ok (argv : list str) (fs : gmap str str) (w : unit)
    : run_outcome * gmap str str * unit :=
  (Completed 0 [], <[default [] (argv !! 4) := lit "PNG"]> fs, w).

(** A renderer that always fails, and counts its calls. *)
Definition render_fail (argv : list str) (fs : gmap str str) (w : nat)
    : run_outcome * gmap str str * nat :=
  (Completed 1 (lit "Parse error on line 1"), fs, S w).

(** A renderer that succeeds without a trace in the file system. *)
Definition render_quiet (argv : list str) (fs : gmap str str) (w : nat)
    : run_outcome * gmap str str * nat :=
  (Completed 0 (lit "warning"), fs, S w).

Definition two_blocks : str :=
  lit "# Doc" ++ [NL] ++ mermaid_block (lit "graph TD; A-->B") ++ [NL]
  ++ lit "text" ++ [NL] ++ mermaid_block (lit "graph TD; C-->D") ++ [NL].

Definition one_block : str :=
  lit "# Doc" ++ [NL] ++ mermaid_block (lit "graph TD; A-->B") ++ [NL].

Definition twice_the_same : str :=
  mermaid_block (lit "A") ++ [NL] ++ mermaid_block (lit "A").

Definition padded_body : str := lit "  graph TD " ++ [NL].

Definition start_with {World} (content : str) (w : World) : State World :=
  mkState {[ input_file := content ]} [] w.

Definition start_dirty (content : str) : State nat :=
  mkState (<[mmd_name 1 := lit "old"]> {[ input_file := content ]}) [lit "earlier"] 7.

(** A renderer whose first call fails and whose later calls succeed. *)
Definition render_first_fails (argv : list str) (fs : gmap str str) (w : nat)
    : run_outcome * gmap str str * nat :=
  (match w with
   | 0 => Completed 2 (lit "syntax error")
   | S _ => Completed 0 []
   end, <[default [] (argv !! 4) := lit "PNG"]> fs, S w).

Definition three_blocks : str :=
  mermaid_block (lit "A") ++ lit "x" ++ mermaid_block (lit "B") ++ lit "y"
  ++ mermaid_block (lit "C").

(** One block, after an image reference that is already in the text. *)
Definition with_logo : str :=
  lit "![Logo](logo.png)" ++ [NL] ++ mermaid_block (lit "graph TD; A-->B").

(** A renderer that fails on every second call, from the first on. *)
Definition render_alternate (argv : list str) (fs : gmap str str) (w : nat)
    : run_outcome * gmap str str * nat :=
  (if Nat.even w then TimeoutExpired else Completed 0 (lit "ok"),
   <[default [] (argv !! 4) := lit "PNG"]> fs, S w).

(** ** Facts on strings *)

Lemma strip_prefix_Some (p s r : str) :
  strip_prefix p s = Some r <-> s = p ++ r.
Proof.
  revert s; induction p as [|a p IH]; intros s; simpl.
  - split; [intros [= ->]; reflexivity | intros ->; reflexivity].
  - destruct s as [|b s]; [split; discriminate|].
    destruct (N.eqb_spec a b) as [->|Hne].
    + rewrite IH. split; [intros ->; reflexivity | intros [= ->]; reflexivity].
    + split; [discriminate | intros [= -> _]; contradiction].
Qed.

Lemma strip_prefix_app (p r : str) : strip_prefix p (p ++ r) = Some r.
Proof. apply strip_prefix_Some; reflexivity. Qed.

Lemma strip_prefix_app_None (p q s : str) :
  strip_prefix p s = None -> strip_prefix (p ++ q) s = None.
Proof.
  intros H. destruct (strip_prefix (p ++ q) s) as [r|] eqn:E; [|reflexivity].
  apply strip_prefix_Some in E. rewrite E, <- app_assoc, strip_prefix_app in H.
  discriminate.
Qed.

Lemma absent_before_cons (pat : str) (n : nat) (c : N) (s : str) :
  strip_prefix pat (c :: s) = None -> absent_before pat n s ->
  absent_before pat (S n) (c :: s).
Proof.
  intros H0 H [|k] Hk; simpl; [assumption | apply H; lia].
Qed.

Lemma absent_before_tail (pat : str) (n : nat) (c : N) (s : str) :
  absent_before pat (S n) (c :: s) -> absent_before pat n s.
Proof. intros H k Hk. apply (H (S k)). lia. Qed.

Lemma split_first_Some (pat s a b : str) :
  split_first pat s = Some (a, b) ->
  s = a ++ pat ++ b /\ absent_before pat (length a) s.
Proof.
  revert a; induction s as [|c s IH]; intros a; simpl.
  - destruct (strip_prefix pat []) as [r|] eqn:E; [|discriminate].
    intros [= <- <-]. apply strip_prefix_Some in E. split; [assumption|].
    intros k Hk; simpl in Hk; lia.
  - destruct (strip_prefix pat (c :: s)) as [r|] eqn:E.
    + intros [= <- <-]. apply strip_prefix_Some in E. split; [assumption|].
      intros k Hk; simpl in Hk; lia.
    + destruct (split_first pat s) as [[a' b']|]; [|discriminate].
      intros [= <- <-]. destruct (IH a' eq_refl) as [-> Hab]. split; [reflexivity|].
      simpl. apply absent_before_cons; assumption.
Qed.

(** The leftmost occurrence is where [pat] first starts. *)
Lemma split_first_leftmost (pat a b : str) :
  absent_before pat (length a) (a ++ pat ++ b) ->
  split_first pat (a ++ pat ++ b) = Some (a, b).
Proof.
  induction a as [|c a IH]; intros H.
  - simpl. destruct pat as [|p pat]; simpl.
    + destruct b; reflexivity.
    + rewrite N.eqb_refl, strip_prefix_app. reflexivity.
  - simpl. change (strip_prefix pat (c :: a ++ pat ++ b))
      with (strip_prefix pat (drop 0 ((c :: a) ++ pat ++ b))).
    rewrite (H 0) by (simpl; lia).
    rewrite IH; [reflexivity|]. eapply absent_before_tail, H.
Qed.

(** An occurrence anywhere gives a leftmost one, not further right. *)
Lemma split_first_occurs (pat u v : str) :
  exists a b, split_first pat (u ++ pat ++ v) = Some (a, b) /\ length a <= length u.
Proof.
  induction u as [|c u IH].
  - exists [], v. split; [|reflexivity].
    apply (split_first_leftmost pat [] v). intros k Hk; simpl in Hk; lia.
  - destruct IH as (a & b & E & Hle). simpl.
    destruct (strip_prefix pat (c :: u ++ pat ++ v)) as [r|].
    + exists [], r. split; [reflexivity | simpl; lia].
    + rewrite E. exists (c :: a), b. split; [reflexivity | simpl; lia].
Qed.

Lemma split_first_None (pat u v : str) : split_first pat (u ++ pat ++ v) <> None.
Proof. destruct (split_first_occurs pat u v) as (a & b & E & _). congruence. Qed.

(** [replace] with count 1 rewrites the leftmost occurrence only. *)
Lemma replace_once (old new s : str) :
  old <> [] ->
  replace old new 1 s =
    match split_first old s with
    | Some (a, b) => a ++ new ++ b
    | None => s
    end.
Proof.
  intros Hold. unfold replace. destruct old as [|o old]; [contradiction|].
  cbn [replace_fuel]. change (1 =? 0)%Z with false. cbv iota.
  destruct (split_first (o :: old) s) as [[a b]|]; [|reflexivity].
  change (1 - 1)%Z with 0%Z. destruct (length s); reflexivity.
Qed.

(** ** Facts on the extractor *)

Lemma mermaid_block_fences (d : str) :
  mermaid_block d = fence_open ++ d ++ fence_close.
Proof. unfold mermaid_block, fence_open, fence_close. rewrite <- app_assoc. reflexivity. Qed.

Lemma length_fence_open : length fence_open = 11.
Proof. reflexivity. Qed.

Lemma length_fence_close : length fence_close = 4.
Proof. reflexivity. Qed.

(** A match is an opening fence, the body, and the first closing fence
    after the opening one; no opening fence starts before the match. *)
Lemma re_search_Some (s pre body rest : str) :
  re_search s = Some (pre, body, rest) ->
  s = pre ++ mermaid_block body ++ rest
  /\ split_first fence_close (body ++ fence_close ++ rest) = Some (body, rest)
  /\ absent_before fence_open (length pre) s.
Proof.
  revert pre; induction s as [|c s IH]; intros pre H.
  - simpl in H. discriminate.
  - cbn [re_search] in H.
    destruct (strip_prefix fence_open (c :: s)) as [after|] eqn:Eo.
    + destruct (split_first fence_close after) as [[body0 rest0]|] eqn:Ec.
      * injection H as <- <- <-.
        apply strip_prefix_Some in Eo.
        destruct (split_first_Some _ _ _ _ Ec) as [-> _].
        rewrite mermaid_block_fences, <- !app_assoc. simpl app at 1.
        split; [exact Eo|]. split; [exact Ec|].
        intros k Hk; simpl in Hk; lia.
      * destruct (re_search s) as [[[pre' body'] rest']|] eqn:Es; [|discriminate].
        injection H as <- <- <-.
        destruct (IH pre' eq_refl) as (Hs & Hc & Hab).
        exfalso. apply strip_prefix_Some in Eo.
        assert (Hafter : after = drop 10 s).
        { apply (f_equal (drop (length fence_open))) in Eo.
          rewrite drop_app_length in Eo. rewrite <- Eo. reflexivity. }
        rewrite Hs, mermaid_block_fences in Hafter.
        rewrite !app_assoc, <- (app_assoc _ fence_close rest') in Hafter.
        rewrite drop_app_le in Hafter
          by (rewrite !length_app, length_fence_open; lia).
        rewrite Hafter in Ec. exact (split_first_None _ _ _ Ec).
    + destruct (re_search s) as [[[pre' body'] rest']|] eqn:Es; [|discriminate].
      injection H as <- <- <-.
      destruct (IH pre' eq_refl) as (Hs & Hc & Hab).
      split; [simpl; f_equal; exact Hs|]. split; [exact Hc|].
      simpl. apply absent_before_cons; assumption.
Qed.

Lemma re_search_shorter (s pre body rest : str) :
  re_search s = Some (pre, body, rest) -> length rest + 15 <= length s.
Proof.
  intros H. apply re_search_Some in H as (-> & _ & _).
  rewrite mermaid_block_fences, !length_app, length_fence_open, length_fence_close. lia.
Qed.

(** No fenced block anywhere: no match. *)
Lemma re_search_None (s : str) :
  (forall a body b, s <> a ++ mermaid_block body ++ b) -> re_search s = None.
Proof.
  intros H. destruct (re_search s) as [[[pre body] rest]|] eqn:E; [|reflexivity].
  apply re_search_Some in E as (-> & _ & _). exfalso. eapply H. reflexivity.
Qed.

Lemma re_findall_fuel_enough (n : nat) : forall (s : str) (f1 f2 : nat),
  length s <= n -> length s <= f1 -> length s <= f2 ->
  re_findall_fuel f1 s = re_findall_fuel f2 s.
Proof.
  induction n as [|n IH]; intros s f1 f2 Hn H1 H2.
  - destruct s; [|simpl in Hn; lia].
    destruct f1, f2; reflexivity.
  - destruct (re_search s) as [[[pre body] rest]|] eqn:E.
    + pose proof (re_search_shorter _ _ _ _ E) as Hlen.
      destruct f1 as [|f1]; [lia|]. destruct f2 as [|f2]; [lia|].
      simpl. rewrite E. f_equal. apply IH; lia.
    + destruct f1, f2; simpl; rewrite ?E; reflexivity.
Qed.

(** The equation of [re.findall]. *)
Lemma extract_mermaid_diagrams_eq (s : str) :
  extract_mermaid_diagrams s =
    match re_search s with
    | Some (_, body, rest) => body :: extract_mermaid_diagrams rest
    | None => []
    end.
Proof.
  unfold extract_mermaid_diagrams.
  destruct (re_search s) as [[[pre body] rest]|] eqn:E.
  - pose proof (re_search_shorter _ _ _ _ E) as Hlen.
    destruct (length s) as [|n] eqn:En; [lia|].
    simpl. rewrite E. f_equal. apply (re_findall_fuel_enough n); lia.
  - destruct (length s); simpl; rewrite ?E; reflexivity.
Qed.

(** ** The document as a sequence of sections *)

Lemma sections_fuel_enough (n : nat) : forall (s : str) (f1 f2 : nat),
  length s <= n -> length s <= f1 -> length s <= f2 ->
  sections_fuel f1 s = sections_fuel f2 s.
Proof.
  induction n as [|n IH]; intros s f1 f2 Hn H1 H2.
  - destruct s; [|simpl in Hn; lia].
    destruct f1, f2; reflexivity.
  - destruct (re_search s) as [[[pre body] rest]|] eqn:E.
    + pose proof (re_search_shorter _ _ _ _ E) as Hlen.
      destruct f1 as [|f1]; [lia|]. destruct f2 as [|f2]; [lia|].
      simpl. rewrite E. rewrite (IH rest f1 f2) by lia. reflexivity.
    + destruct f1, f2; simpl; rewrite ?E; reflexivity.
Qed.

Lemma sections_eq (s : str) :
  sections s =
    match re_search s with
    | Some (pre, body, rest) =>
        let (segs, tail) := sections rest in ((pre, body) :: segs, tail)
    | None => ([], s)
    end.
Proof.
  unfold sections.
  destruct (re_search s) as [[[pre body] rest]|] eqn:E.
  - pose proof (re_search_shorter _ _ _ _ E) as Hlen.
    destruct (length s) as [|n] eqn:En; [lia|].
    simpl. rewrite E. rewrite (sections_fuel_enough n rest n (length rest)) by lia.
    reflexivity.
  - destruct (length s); simpl; rewrite ?E; reflexivity.
Qed.

(** Induction on a document along its matches. *)
Lemma document_ind (P : str -> Prop) :
  (forall s, re_search s = None -> P s) ->
  (forall s pre body rest, re_search s = Some (pre, body, rest) -> P rest -> P s) ->
  forall s, P s.
Proof.
  intros Hnone Hsome s.
  remember (length s) as n eqn:En. revert s En.
  induction n as [n IH] using lt_wf_ind. intros s ->.
  destruct (re_search s) as [[[pre body] rest]|] eqn:E.
  - apply (Hsome s pre body rest E).
    apply (IH (length rest)); [|reflexivity].
    apply re_search_shorter in E. lia.
  - apply Hnone, E.
Qed.

(** The extracted bodies are the bodies of the sections, in order. *)
Lemma extract_sections (s : str) :
  extract_mermaid_diagrams s = (sections s).1.*2.
Proof.
  induction s as [s E | s pre body rest E IH] using document_ind;
    rewrite extract_mermaid_diagrams_eq, sections_eq, E.
  - reflexivity.
  - rewrite IH. destruct (sections rest). reflexivity.
Qed.

(** The document is its sections with the blocks in between. *)
Lemma weave_sections (s : str) (i : nat) :
  weave keep_block i (sections s).1 (sections s).2 = s.
Proof.
  revert i. induction s as [s E | s pre body rest E IH] using document_ind;
    intros i; rewrite sections_eq, E.
  - reflexivity.
  - specialize (IH (S i)). destruct (sections rest) as [segs tail]. simpl in *.
    rewrite IH. apply re_search_Some in E as (-> & _). reflexivity.
Qed.

Lemma weave_put_image_ge (image_files : list str) (segs : list (str * str)) (tail : str) :
  forall i, length image_files <= i ->
  weave (put_image image_files) i segs tail = weave keep_block i segs tail.
Proof.
  induction segs as [|[pre body] segs IH]; intros i Hi; simpl; [reflexivity|].
  rewrite IH by lia. unfold put_image, keep_block.
  rewrite (lookup_ge_None_2 image_files i) by lia. reflexivity.
Qed.

Lemma enhance_loop_ge (image_files diagrams : list str) (t : str) :
  forall i, length image_files <= i -> enhance_loop i diagrams image_files t = t.
Proof.
  induction diagrams as [|d ds IH]; intros i Hi; simpl; [reflexivity|].
  rewrite (lookup_ge_None_2 image_files i) by lia. apply IH. lia.
Qed.

(** ** Text in which no opening fence can start *)

Lemma absent_before_app (pat X s : str) (n : nat) :
  absent_before pat (length X) (X ++ s) -> absent_before pat n s ->
  absent_before pat (length X + n) (X ++ s).
Proof.
  intros HX Hs k Hk. destruct (decide (k < length X)) as [Hlt|Hge].
  - apply HX, Hlt.
  - rewrite drop_app_ge by lia. apply Hs. lia.
Qed.

Lemma inert_nil : inert [].
Proof. intros Y k Hk. simpl in Hk. lia. Qed.

Lemma inert_app (X X' : str) : inert X -> inert X' -> inert (X ++ X').
Proof.
  intros HX HX' Y. rewrite length_app, <- app_assoc.
  apply absent_before_app; [apply HX | apply HX'].
Qed.

Lemma fence_open_backtick : exists p, fence_open = backtick :: p.
Proof. eexists. reflexivity. Qed.

Lemma absent_before_lacks (c0 : N) (p X Y : str) :
  lacks c0 X = true -> absent_before (c0 :: p) (length X) (X ++ Y).
Proof.
  induction X as [|c X IH]; intros HX.
  - intros k Hk. simpl in Hk. lia.
  - simpl in HX. apply andb_true_iff in HX as [Hc HX].
    simpl. apply absent_before_cons; [|apply IH, HX].
    cbn [strip_prefix]. rewrite N.eqb_sym.
    destruct (c =? c0)%N; [discriminate | reflexivity].
Qed.

Lemma inert_plain (X : str) : plain X = true -> inert X.
Proof.
  intros HX Y. destruct fence_open_backtick as [p ->].
  apply absent_before_lacks, HX.
Qed.

(** What follows [u] does not matter to a pattern without ['!'] when it
    is replaced by a text that starts with ['!']. *)
Lemma strip_prefix_bang (p u Z W : str) :
  33%N ∉ p -> strip_prefix p (u ++ Z) = None ->
  strip_prefix p (u ++ 33%N :: W) = None.
Proof.
  revert p; induction u as [|c u IH]; intros p Hp H.
  - destruct p as [|a p]; [discriminate|]. simpl.
    apply not_elem_of_cons in Hp as [Ha _].
    destruct (N.eqb_spec a 33) as [->|_]; [contradiction | reflexivity].
  - destruct p as [|a p]; [discriminate|]. simpl in *.
    apply not_elem_of_cons in Hp as [_ Hp].
    destruct (a =? c)%N; [apply IH; assumption | reflexivity].
Qed.

Lemma fence_open_no_bang : 33%N ∉ fence_open.
Proof.
  unfold fence_open. intros H. apply list_elem_of_In in H. simpl in H.
  repeat (destruct H as [H|H]; [discriminate H|]). exact H.
Qed.

Lemma absent_before_bang (pre Z W : str) :
  absent_before fence_open (length pre) (pre ++ Z) ->
  absent_before fence_open (length pre) (pre ++ 33%N :: W).
Proof.
  intros H k Hk. specialize (H k Hk).
  rewrite drop_app_le in * by lia.
  eapply strip_prefix_bang; [apply fence_open_no_bang | exact H].
Qed.

Lemma plain_app (a b : str) : plain (a ++ b) = plain a && plain b.
Proof. apply forallb_app. Qed.

Lemma str_of_nat_plain (n : nat) : plain (str_of_nat n) = true.
Proof.
  unfold str_of_nat. generalize (Nat.to_uint n) as d.
  induction d; simpl; try reflexivity; exact IHd.
Qed.

Lemma image_ref_bang (i : nat) (image : str) :
  exists W, image_ref i image = 33%N :: W.
Proof. eexists. reflexivity. Qed.

Lemma image_ref_plain (i : nat) (image : str) :
  plain image = true -> plain (image_ref i image) = true.
Proof.
  intros H. unfold image_ref. rewrite !plain_app, str_of_nat_plain, H. reflexivity.
Qed.

(** A section whose block has become an image reference is inert. *)
Lemma inert_section (pre Z : str) (i : nat) (image : str) :
  absent_before fence_open (length pre) (pre ++ Z) ->
  plain image = true ->
  inert (pre ++ image_ref i image).
Proof.
  intros Hpre Himg Y. rewrite length_app, <- app_assoc.
  apply absent_before_app.
  - destruct (image_ref_bang i image) as [W ->]. simpl.
    eapply absent_before_bang, Hpre.
  - apply inert_plain, image_ref_plain, Himg.
Qed.

(** The search skips an inert prefix. *)
Lemma re_search_inert (X s : str) :
  inert X ->
  re_search (X ++ s) =
    match re_search s with
    | Some (pre, body, rest) => Some (X ++ pre, body, rest)
    | None => None
    end.
Proof.
  induction X as [|c X IH]; intros HX.
  - simpl. destruct (re_search s) as [[[pre body] rest]|]; reflexivity.
  - assert (HX' : inert X) by (intros Y; eapply absent_before_tail, (HX Y)).
    pose proof (HX s 0 ltac:(simpl; lia)) as H0.
    change (strip_prefix fence_open (c :: X ++ s) = None) in H0.
    change ((c :: X) ++ s) with (c :: X ++ s). cbn [re_search].
    rewrite H0, (IH HX').
    destruct (re_search s) as [[[pre body] rest]|]; reflexivity.
Qed.

Lemma extract_inert (X s : str) :
  inert X -> extract_mermaid_diagrams (X ++ s) = extract_mermaid_diagrams s.
Proof.
  intros HX.
  rewrite (extract_mermaid_diagrams_eq (X ++ s)), (extract_mermaid_diagrams_eq s).
  rewrite (re_search_inert X s HX).
  destruct (re_search s) as [[[pre body] rest]|]; reflexivity.
Qed.

Lemma mermaid_block_nonempty (d : str) : mermaid_block d <> [].
Proof. discriminate. Qed.

(** With an inert text before it, the block of the leftmost match is the
    leftmost occurrence of its own text. *)
Lemma replace_block_inert (X s pre body rest new : str) :
  inert X -> re_search s = Some (pre, body, rest) ->
  replace (mermaid_block body) new 1 (X ++ s) = (X ++ pre) ++ new ++ rest.
Proof.
  intros HX E. apply re_search_Some in E as (Hs & _ & Hpre).
  rewrite replace_once by apply mermaid_block_nonempty.
  assert (Habs : absent_before (mermaid_block body) (length (X ++ pre))
                   ((X ++ pre) ++ mermaid_block body ++ rest)).
  { intros k Hk. rewrite mermaid_block_fences at 1.
    apply strip_prefix_app_None. revert k Hk.
    rewrite length_app, <- app_assoc, <- Hs. apply absent_before_app; [apply HX | exact Hpre]. }
  rewrite Hs at 1. rewrite app_assoc.
  rewrite (split_first_leftmost _ _ _ Habs). reflexivity.
Qed.

(** ** The substituter on plain image paths *)

Lemma forallb_lookup (P : str -> bool) (l : list str) (i : nat) (x : str) :
  forallb P l = true -> l !! i = Some x -> P x = true.
Proof.
  intros H Hi. rewrite forallb_forall in H. apply H.
  apply list_elem_of_In. eapply list_elem_of_lookup_2, Hi.
Qed.

Lemma enhance_loop_weave (image_files : list str) :
  forallb plain image_files = true ->
  forall (s X : str) (i : nat), inert X ->
  enhance_loop i (extract_mermaid_diagrams s) image_files (X ++ s)
  = X ++ weave (put_image image_files) i (sections s).1 (sections s).2.
Proof.
  intros Himgs s.
  induction s as [s E | s pre body rest E IH] using document_ind; intros X i HX;
    rewrite extract_mermaid_diagrams_eq, sections_eq, E.
  - reflexivity.
  - pose proof (weave_sections rest (S i)) as Hrest.
    destruct (image_files !! i) as [image|] eqn:Ei.
    + specialize (IH (X ++ pre ++ image_ref i image) (S i)).
      destruct (sections rest) as [segs tail]. cbn [fst snd weave enhance_loop] in *.
      unfold put_image at 1. rewrite Ei.
      rewrite (replace_block_inert X s pre body rest _ HX E).
      rewrite <- !app_assoc in *. apply IH.
      apply inert_app; [exact HX|].
      apply re_search_Some in E as (Hs & _ & Hpre). rewrite Hs in Hpre.
      eapply inert_section; [exact Hpre|].
      eapply forallb_lookup; [exact Himgs | exact Ei].
    + destruct (sections rest) as [segs tail]. cbn [fst snd enhance_loop] in *.
      rewrite Ei. apply lookup_ge_None_1 in Ei.
      rewrite enhance_loop_ge by lia.
      rewrite weave_put_image_ge by lia. cbn [weave]. rewrite Hrest.
      apply re_search_Some in E as (-> & _). reflexivity.
Qed.

(** The blocks that remain after the substitution are those the image
    sequence does not reach. *)
Lemma extract_weave (image_files : list str) :
  forallb plain image_files = true ->
  forall (s X : str) (i : nat), inert X ->
  extract_mermaid_diagrams (X ++ weave (put_image image_files) i (sections s).1 (sections s).2)
  = drop (length image_files - i) (extract_mermaid_diagrams s).
Proof.
  intros Himgs s.
  induction s as [s E | s pre body rest E IH] using document_ind; intros X i HX.
  - rewrite sections_eq, E. cbn [fst snd weave].
    rewrite (extract_inert X s HX), extract_mermaid_diagrams_eq, E.
    symmetry. apply drop_nil.
  - destruct (image_files !! i) as [image|] eqn:Ei.
    + rewrite (extract_mermaid_diagrams_eq s), sections_eq, E.
      specialize (IH (X ++ pre ++ image_ref i image) (S i)).
      destruct (sections rest) as [segs tail]. cbn [fst snd weave] in *.
      unfold put_image at 1. rewrite Ei.
      pose proof (lookup_lt_Some _ _ _ Ei) as Hlt.
      replace (length image_files - i) with (S (length image_files - S i)) by lia.
      cbn [drop]. rewrite <- IH.
      * rewrite <- !app_assoc. reflexivity.
      * apply inert_app; [exact HX|].
        apply re_search_Some in E as (Hs & _ & Hpre). rewrite Hs in Hpre.
        eapply inert_section; [exact Hpre|].
        eapply forallb_lookup; [exact Himgs | exact Ei].
    + apply lookup_ge_None_1 in Ei.
      rewrite weave_put_image_ge, weave_sections by lia.
      replace (length image_files - i) with 0 by lia.
      apply extract_inert, HX.
Qed.

(** ** The substituter on any image paths *)




(** ** Facts on file names *)

Lemma lit_inj (s1 s2 : string) : lit s1 = lit s2 -> s1 = s2.
Proof.
  assert (Hback : forall l : list Ascii.ascii,
            Ascii.ascii_of_N <$> (Ascii.N_of_ascii <$> l) = l).
  { induction l as [|a l IH]; [reflexivity|].
    cbn [fmap list_fmap] in *. rewrite Ascii.ascii_N_embedding. f_equal. exact IH. }
  intros H.
  apply (f_equal (fun l => String.string_of_list_ascii (Ascii.ascii_of_N <$> l))) in H.
  unfold lit in H.
  rewrite !Hback, !String.string_of_list_ascii_of_string in H. exact H.
Qed.

Lemma str_of_nat_inj (n m : nat) : str_of_nat n = str_of_nat m -> n = m.
Proof.
  intros H. apply lit_inj in H.
  apply (f_equal NilEmpty.uint_of_string) in H. rewrite !NilEmpty.usu in H.
  injection H as H. apply DecimalNat.Unsigned.to_uint_inj, H.
Qed.

Lemma mmd_name_inj (n m : nat) : mmd_name n = mmd_name m -> n = m.
Proof.
  unfold mmd_name. intros H. apply app_inv_head, app_inv_tail in H.
  apply str_of_nat_inj, H.
Qed.

Lemma str_of_nat_no_dot (n : nat) : lacks 46%N (str_of_nat n) = true.
Proof.
  unfold str_of_nat. generalize (Nat.to_uint n) as d.
  induction d; simpl; try reflexivity; exact IHd.
Qed.

Lemma lacks_app (c0 : N) (a b : str) : lacks c0 (a ++ b) = lacks c0 a && lacks c0 b.
Proof. apply forallb_app. Qed.

(** [mmd_file.replace('.mmd', '.png')] on a name the materializer made. *)
Lemma png_of_mmd_name (k : nat) :
  replace (lit ".mmd") (lit ".png") (-1) (mmd_name k) = png_name k.
Proof.
  unfold replace. cbn [lit String.list_ascii_of_string fmap list_fmap].
  cbn [replace_fuel]. change (-1 =? 0)%Z with false. cbv iota.
  assert (E : split_first (lit ".mmd") (mmd_name k)
              = Some (lit "/tmp/diagram_" ++ str_of_nat k, [])).
  { unfold mmd_name. rewrite app_assoc, <- (app_nil_r (lit ".mmd")).
    apply split_first_leftmost. apply (absent_before_lacks 46%N).
    rewrite lacks_app, str_of_nat_no_dot. reflexivity. }
  change (split_first (lit ".mmd") (mmd_name k)
          = Some (lit "/tmp/diagram_" ++ str_of_nat k, [])) in E.
  unfold lit in E at 1. cbn [String.list_ascii_of_string fmap list_fmap] in E.
  rewrite E.
  assert (Hlen : exists f, length (mmd_name k) = S f).
  { unfold mmd_name. rewrite length_app. simpl. eexists. reflexivity. }
  destruct Hlen as [f ->]. unfold png_name. rewrite <- app_assoc. reflexivity.
Qed.

Lemma png_name_plain (k : nat) : plain (png_name k) = true.
Proof.
  unfold png_name, plain. rewrite !lacks_app.
  change (lacks backtick (str_of_nat k)) with (plain (str_of_nat k)).
  rewrite str_of_nat_plain. reflexivity.
Qed.

(** ** Facts on the materializer *)

Lemma create_mermaid_files_loop_spec {World} (diagrams : list str) :
  forall (i : nat) (acc : list str) (st : State World),
  let r := create_mermaid_files_loop i diagrams acc st in
  r.1 = acc ++ (mmd_name <$> seq (i + 1) (length diagrams))
  /\ console r.2 = console st
  /\ world r.2 = world st
  /\ (forall j d, diagrams !! j = Some d ->
        files r.2 !! mmd_name (i + 1 + j) = Some (strip d))
  /\ (forall p, (forall j, j < length diagrams -> p <> mmd_name (i + 1 + j)) ->
        files r.2 !! p = files st !! p).
Proof.
  induction diagrams as [|d ds IH]; intros i acc st; cbn zeta.
  - cbn [create_mermaid_files_loop fst snd length seq fmap list_fmap].
    rewrite app_nil_r. repeat split; try reflexivity.
    intros j d0 Hj. rewrite lookup_nil in Hj. discriminate.
  - cbn [create_mermaid_files_loop].
    specialize (IH (S i) (acc ++ [mmd_name (i + 1)])
                  (write_file (mmd_name (i + 1)) (strip d) st)).
    cbn zeta in IH. destruct IH as (Hp & Hc & Hw & Hin & Hout).
    fold (mmd_name (i + 1)).
    split; [|split; [|split; [|split]]].
    + rewrite Hp, <- app_assoc. cbn [length seq fmap list_fmap].
      replace (S i + 1) with (S (i + 1)) by lia. reflexivity.
    + rewrite Hc. reflexivity.
    + rewrite Hw. reflexivity.
    + intros [|j] d0 Hj.
      * injection Hj as <-. rewrite Hout.
        -- cbn [write_file files]. replace (i + 1 + 0) with (i + 1) by lia.
           apply lookup_insert_eq.
        -- intros j _ Heq. apply mmd_name_inj in Heq. lia.
      * replace (i + 1 + S j) with (S i + 1 + j) by lia. apply Hin, Hj.
    + intros p Hp'. rewrite Hout.
      * cbn [write_file files]. apply lookup_insert_ne.
        intros Heq. apply (Hp' 0); [simpl; lia|].
        replace (i + 1 + 0) with (i + 1) by lia. congruence.
      * intros j Hj Heq. apply (Hp' (S j)); [simpl; lia|].
        replace (i + 1 + S j) with (S i + 1 + j) by lia. exact Heq.
Qed.

Lemma NoDup_mmd_names (i n : nat) : NoDup (mmd_name <$> seq i n).
Proof.
  apply NoDup_fmap_2; [|apply NoDup_seq].
  intros a b. apply mmd_name_inj.
Qed.

(** ** Facts on the renderer invoker *)

Section RendererFacts.
Context {World : Type}.
Variable subprocess_run :
  list str -> gmap str str -> World -> run_outcome * gmap str str * World.

Lemma length_outcomes (diagram_files : list str) : forall st : State World,
  length (outcomes subprocess_run diagram_files st) = length diagram_files.
Proof.
  induction diagram_files as [|f fs IH]; intros st; cbn [outcomes]; [reflexivity|].
  destruct (invoke subprocess_run f st) as [r st1]. cbn [length]. rewrite IH. reflexivity.
Qed.

Lemma console_invoke (mmd_file : str) (st : State World) :
  console (invoke subprocess_run mmd_file st).2 = console st.
Proof.
  unfold invoke. destruct (subprocess_run _ _ _) as [[r fs] w]. reflexivity.
Qed.

Lemma convert_loop_spec (diagram_files : list str) :
  forall (acc : list str) (st : State World),
  let rs := outcomes subprocess_run diagram_files st in
  let r := convert_loop subprocess_run diagram_files acc st in
  r.1 = acc ++ rendered diagram_files rs
  /\ console r.2 = console st ++ zip_with notice diagram_files rs.
Proof.
  induction diagram_files as [|f fs IH]; intros acc st; cbn zeta.
  - cbn [convert_loop outcomes rendered zip_with fst snd]. rewrite !app_nil_r. split; reflexivity.
  - cbn [convert_loop outcomes].
    pose proof (console_invoke f st) as Hc.
    destruct (invoke subprocess_run f st) as [result st1]. cbn [snd] in Hc.
    cbn [rendered zip_with].
    destruct result as [returncode stderr | | e]; cbn [exited_zero notice].
    + destruct (returncode =? 0)%Z.
      * destruct (IH (acc ++ [replace (lit ".mmd") (lit ".png") (-1) f])
                    (print ([10003%N] ++ lit " Created "
                              ++ replace (lit ".mmd") (lit ".png") (-1) f) st1))
          as [H1 H2].
        rewrite H1, H2. cbn [print console]. rewrite Hc, <- !app_assoc. split; reflexivity.
      * destruct (IH acc
                    (print ([10007%N] ++ lit " Failed to create "
                              ++ replace (lit ".mmd") (lit ".png") (-1) f
                              ++ lit ": " ++ stderr) st1))
          as [H1 H2].
        rewrite H1, H2. cbn [print console]. rewrite Hc, <- !app_assoc. split; reflexivity.
    + destruct (IH acc (print ([10007%N] ++ lit " Timeout converting " ++ f) st1))
        as [H1 H2].
      rewrite H1, H2. cbn [print console]. rewrite Hc, <- !app_assoc. split; reflexivity.
    + destruct (IH acc (print ([10007%N] ++ lit " Error converting " ++ f ++ lit ": " ++ e) st1))
        as [H1 H2].
      rewrite H1, H2. cbn [print console]. rewrite Hc, <- !app_assoc. split; reflexivity.
Qed.

End RendererFacts.

Lemma rendered_all (rs : list run_outcome) : forall i : nat,
  forallb exited_zero rs = true ->
  rendered (mmd_name <$> seq i (length rs)) rs = png_name <$> seq i (length rs).
Proof.
  induction rs as [|r rs IH]; intros i H; [reflexivity|].
  cbn [forallb] in H. apply andb_true_iff in H as [Hr Hrs].
  cbn [length seq fmap list_fmap rendered]. rewrite Hr, png_of_mmd_name.
  f_equal. apply IH, Hrs.
Qed.

Lemma rendered_exited_zero (diagram_files : list str) : forall rs1 rs2 : list run_outcome,
  exited_zero <$> rs1 = exited_zero <$> rs2 ->
  rendered diagram_files rs1 = rendered diagram_files rs2.
Proof.
  induction diagram_files as [|f fs IH]; intros rs1 rs2 H; [reflexivity|].
  destruct rs1 as [|r1 rs1], rs2 as [|r2 rs2]; try discriminate; [reflexivity|].
  cbn [fmap list_fmap] in H. injection H as Hr Hrs.
  cbn [rendered]. rewrite Hr, (IH rs1 rs2 Hrs). reflexivity.
Qed.

Lemma rendered_none (diagram_files : list str) : forall rs : list run_outcome,
  forallb (fun r => negb (exited_zero r)) rs = true ->
  rendered diagram_files rs = [].
Proof.
  induction diagram_files as [|f fs IH]; intros rs H; [reflexivity|].
  destruct rs as [|r rs]; [reflexivity|].
  cbn [forallb] in H. apply andb_true_iff in H as [Hr Hrs].
  cbn [rendered]. destruct (exited_zero r); [discriminate|]. apply IH, Hrs.
Qed.

(** ** Facts on the script *)

Section MainFacts.
Context {World : Type}.
Variable subprocess_run :
  list str -> gmap str str -> World -> run_outcome * gmap str str * World.

Lemma files_list_created (image_files : list str) : forall st : State World,
  files (list_created image_files st) = files st.
Proof.
  induction image_files as [|img imgs IH]; intros st; cbn [list_created]; [reflexivity|].
  rewrite IH. destruct (files st !! img); reflexivity.
Qed.

Lemma main_materialized_files (content : str) (st : State World) :
  (main_materialized content st).1
  = mmd_name <$> seq 1 (length (extract_mermaid_diagrams content)).
Proof.
  unfold main_materialized, create_mermaid_files.
  match goal with
  | |- context [create_mermaid_files_loop 0 ?ds [] ?s] =>
      pose proof (create_mermaid_files_loop_spec ds 0 [] s) as H;
      destruct (create_mermaid_files_loop 0 ds [] s) as [dfs st']
  end.
  cbn zeta in H. destruct H as [H _]. exact H.
Qed.

(** The script writes the substituter's text for the images of the
    calls that exited with status zero. *)
Lemma main_enhanced (content : str) (st : State World) :
  files st !! input_file = Some content ->
  exists st', main subprocess_run st = Some st'
    /\ files st' !! enhanced_file
       = Some (create_enhanced_markdown content
                 (rendered (mmd_name <$> seq 1 (length (extract_mermaid_diagrams content)))
                    (main_outcomes subprocess_run st))).
Proof.
  intros Hin. unfold main, main_outcomes. rewrite Hin.
  pose proof (main_materialized_files content st) as Hm.
  destruct (main_materialized content st) as [dfs stm]. cbn [fst] in Hm. subst dfs.
  unfold convert_diagrams_to_images.
  match goal with
  | |- context [convert_loop subprocess_run ?fs [] stm] =>
      pose proof (convert_loop_spec subprocess_run fs [] stm) as H;
      destruct (convert_loop subprocess_run fs [] stm) as [imgs stc]
  end.
  cbn zeta in H. destruct H as [H _]. cbn [fst app] in H. subst imgs.
  eexists. split; [reflexivity|].
  cbn [print files]. rewrite files_list_created. cbn [print write_file files].
  apply lookup_insert_eq.
Qed.

Lemma length_main_outcomes (content : str) (st : State World) :
  files st !! input_file = Some content ->
  length (main_outcomes subprocess_run st) = length (extract_mermaid_diagrams content).
Proof.
  intros Hin. unfold main_outcomes. rewrite Hin.
  pose proof (main_materialized_files content st) as Hm.
  destruct (main_materialized content st) as [dfs stm]. cbn [fst] in Hm. subst dfs.
  rewrite length_outcomes, length_fmap, length_seq. reflexivity.
Qed.

End MainFacts.

(** ** Facts on [strip] *)

Lemma lstrip_spec (s : str) :
  exists l, s = l ++ lstrip s /\ forallb isspace l = true
    /\ (forall c t', lstrip s = c :: t' -> isspace c = false).
Proof.
  induction s as [|c s (l & Hs & Hl & Hh)].
  - exists []. repeat split. intros c t' H. discriminate.
  - cbn [lstrip]. destruct (isspace c) eqn:Ec.
    + exists (c :: l). cbn [forallb app]. rewrite Ec, Hl, <- Hs. repeat split. exact Hh.
    + exists []. repeat split. intros c' t' [= <- _]. exact Ec.
Qed.

Lemma lstrip_nonspace (u v : str) (c : N) :
  isspace c = false -> lstrip (u ++ c :: v) = lstrip u ++ c :: v.
Proof.
  intros Hc. induction u as [|a u IH]; cbn [app lstrip].
  - rewrite Hc. reflexivity.
  - destruct (isspace a); [exact IH | reflexivity].
Qed.

Lemma strip_spec (d : str) : stripped_of d (strip d).
Proof.
  unfold strip, rstrip.
  destruct (lstrip_spec d) as (l & Hd & Hl & Hhead).
  destruct (lstrip_spec (rev (lstrip d))) as (r & Hr & Hrs & Hlast).
  exists l, (rev r). split; [|split; [|split; [|split]]].
  - rewrite Hd at 1. f_equal. rewrite <- rev_app_distr, <- Hr, rev_involutive. reflexivity.
  - exact Hl.
  - rewrite forallb_forall in *. intros x Hx. apply Hrs, in_rev, Hx.
  - intros c t' Ht. destruct (lstrip d) as [|c0 t0] eqn:El.
    + cbn in Ht. discriminate.
    + pose proof (Hhead c0 t0 eq_refl) as Hc0.
      cbn [rev] in Ht. rewrite lstrip_nonspace in Ht by exact Hc0.
      rewrite rev_app_distr in Ht. cbn in Ht. injection Ht as <- _. exact Hc0.
  - intros c t' Ht. apply (Hlast c (rev t')).
    apply (f_equal (@rev N)) in Ht.
    rewrite rev_involutive, rev_app_distr in Ht. exact Ht.
Qed.

(** ** Where an extracted body stands in the document *)

Lemma extract_lookup_occurs (s : str) : forall (j : nat) (d : str),
  extract_mermaid_diagrams s !! j = Some d ->
  exists a b, s = a ++ fence_open ++ d ++ fence_close ++ b.
Proof.
  induction s as [s E | s pre body rest E IH] using document_ind; intros j d;
    rewrite extract_mermaid_diagrams_eq, E.
  - rewrite lookup_nil. discriminate.
  - apply re_search_Some in E as (Hs & _). rewrite mermaid_block_fences in Hs.
    destruct j as [|j]; cbn [lookup list_lookup].
    + intros [= <-]. exists pre, rest. rewrite Hs, <- !app_assoc. reflexivity.
    + intros Hj. destruct (IH j d Hj) as (a & b & ->).
      exists (pre ++ fence_open ++ body ++ fence_close ++ a), b.
      rewrite Hs, <- !app_assoc. reflexivity.
Qed.

Lemma weave_ext (f g : nat -> str -> str) (segs : list (str * str)) (tail : str) :
  forall i,
  (forall j body, i <= j < i + length segs -> f j body = g j body) ->
  weave f i segs tail = weave g i segs tail.
Proof.
  induction segs as [|[pre body] segs IH]; intros i H; cbn [weave]; [reflexivity|].
  rewrite (H i body) by (cbn [length]; lia).
  rewrite (IH (S i)); [reflexivity|].
  intros j b Hj. apply H. cbn [length]. lia.
Qed.

Lemma length_sections (s : str) :
  length (sections s).1 = length (extract_mermaid_diagrams s).
Proof. rewrite extract_sections, length_fmap. reflexivity. Qed.

Lemma create_enhanced_markdown_weave (content : str) (image_files : list str) :
  forallb plain image_files = true ->
  create_enhanced_markdown content image_files
  = weave (put_image image_files) 0 (sections content).1 (sections content).2.
Proof.
  intros H. unfold create_enhanced_markdown.
  exact (enhance_loop_weave image_files H content [] 0 inert_nil).
Qed.

Lemma forallb_plain_png_names (i n : nat) : forallb plain (png_name <$> seq i n) = true.
Proof.
  apply forallb_forall. intros x Hx. apply list_elem_of_In, list_elem_of_fmap in Hx.
  destruct Hx as (k & -> & _). apply png_name_plain.
Qed.

(** ** The claims *)


(** C4. When the document has one fenced block and its render call exits
    with a non-zero status, the enhanced document is the input document,
    character for character. *)
Theorem main_single_failure {World : Type}
    (subprocess_run : list str -> gmap str str -> World -> run_outcome * gmap str str * World)
    (st : State World) (content : str) (returncode : Z) (stderr : str) :
  files st !! input_file = Some content ->
  length (extract_mermaid_diagrams content) = 1 ->
  main_outcomes subprocess_run st = [Completed returncode stderr] ->
  returncode <> 0%Z ->
  exists st', main subprocess_run st = Some st'
    /\ files st' !! enhanced_file = Some content.
Proof.
  intros Hin Hone Hout Hrc.
  destruct (main_enhanced subprocess_run content st Hin) as (st' & Hmain & Hfile).
  exists st'. split; [exact Hmain|].
  rewrite Hfile, Hout, Hone. cbn [seq fmap list_fmap rendered exited_zero].
  apply Z.eqb_neq in Hrc. rewrite Hrc.
  unfold create_enhanced_markdown. rewrite enhance_loop_ge by (cbn [length]; lia).
  reflexivity.
Qed.

(** C5. For every document in which no tagged fenced block occurs,
    [extract_mermaid_diagrams] returns the empty sequence and
    [create_enhanced_markdown] returns the document unchanged, whatever
    the image sequence. *)
Theorem no_blocks_identity (content : str) :
  (forall a body b, content <> a ++ mermaid_block body ++ b) ->
  extract_mermaid_diagrams content = []
  /\ forall image_files, create_enhanced_markdown content image_files = content.
Proof.
  intros H. apply re_search_None in H.
  assert (E : extract_mermaid_diagrams content = [])
    by (rewrite extract_mermaid_diagrams_eq, H; reflexivity).
  split; [exact E|]. intros image_files.
  unfold create_enhanced_markdown. rewrite E. reflexivity.
Qed.

(** C6. For every sequence of [n] bodies, [create_mermaid_files] writes
    the [n] files named with the ordinals 1 to [n] in [/tmp], each with
    the stripped text of the body of that ordinal, touches no other
    file, and returns these [n] distinct paths in the order of the
    bodies. *)
Theorem create_mermaid_files_ordinals {World : Type} (diagrams : list str) (st : State World) :
  let r := create_mermaid_files diagrams st in
  r.1 = mmd_name <$> seq 1 (length diagrams)
  /\ length r.1 = length diagrams
  /\ NoDup r.1
  /\ (forall j d, diagrams !! j = Some d ->
        r.1 !! j = Some (lit "/tmp/diagram_" ++ str_of_nat (j + 1) ++ lit ".mmd")
        /\ files r.2 !! (lit "/tmp/diagram_" ++ str_of_nat (j + 1) ++ lit ".mmd")
           = Some (strip d))
  /\ (forall p, p ∉ r.1 -> files r.2 !! p = files st !! p)
  /\ dom (files r.2) = dom (files st) ∪ list_to_set r.1.
Proof.
  cbn zeta. unfold create_mermaid_files.
  pose proof (create_mermaid_files_loop_spec diagrams 0 [] st) as H. cbn zeta in H.
  destruct (create_mermaid_files_loop 0 diagrams [] st) as [paths st'].
  cbn [fst snd app] in *. destruct H as (-> & _ & _ & Hin & Hout).
  change (0 + 1) with 1 in *.
  assert (Hother : forall p, p ∉ mmd_name <$> seq 1 (length diagrams) ->
                     files st' !! p = files st !! p).
  { intros p Hp. apply Hout. intros j Hj ->. apply Hp.
    apply list_elem_of_fmap. exists (1 + j). split; [reflexivity|].
    apply elem_of_seq. lia. }
  split; [reflexivity|]. split; [rewrite length_fmap, length_seq; reflexivity|].
  split; [apply NoDup_mmd_names|]. split; [|split; [exact Hother|]].
  - intros j d Hj. fold (mmd_name (j + 1)). split.
    + rewrite list_lookup_fmap, lookup_seq_lt by (eapply lookup_lt_Some, Hj).
      cbn [fmap option_fmap option_map]. replace (1 + j) with (j + 1) by lia. reflexivity.
    + replace (j + 1) with (1 + j) by lia. apply (Hin j d Hj).
  - apply set_eq. intros p.
    rewrite elem_of_union, !elem_of_dom, elem_of_list_to_set.
    destruct (decide (p ∈ mmd_name <$> seq 1 (length diagrams))) as [Hp|Hp].
    + split; [intros _; right; exact Hp|]. intros _.
      apply list_elem_of_fmap in Hp as (k & -> & Hk). apply elem_of_seq in Hk.
      destruct (lookup_lt_is_Some_2 diagrams (k - 1) ltac:(lia)) as [d Hd].
      specialize (Hin _ _ Hd). replace (1 + (k - 1)) with k in Hin by lia.
      rewrite Hin. eexists. reflexivity.
    + rewrite (Hother p Hp). split; [intros H; left; exact H|].
      intros [H|H]; [exact H | contradiction].
Qed.

(** C7. The body the extractor returns stands in the document verbatim
    between an opening and a closing fence, its own leading and trailing
    whitespace included; the text the materializer writes to the file of
    that body is the body without its leading and trailing whitespace. *)
Theorem body_whitespace {World : Type} (content : str) (st : State World) (j : nat) (d : str) :
  extract_mermaid_diagrams content !! j = Some d ->
  (exists a b, content = a ++ fence_open ++ d ++ fence_close ++ b)
  /\ files (create_mermaid_files (extract_mermaid_diagrams content) st).2
       !! mmd_name (j + 1) = Some (strip d)
  /\ stripped_of d (strip d).
Proof.
  intros Hj. split; [eapply extract_lookup_occurs, Hj|]. split; [|apply strip_spec].
  unfold create_mermaid_files.
  pose proof (create_mermaid_files_loop_spec (extract_mermaid_diagrams content) 0 [] st) as H.
  cbn zeta in H. destruct H as (_ & _ & _ & H & _).
  replace (j + 1) with (0 + 1 + j) by lia. apply (H j d Hj).
Qed.

(** C8. Two runs of [main] on the same input document, in which the
    render calls succeed and fail at the same positions, write the same
    enhanced document, whatever else differs between the runs (the
    scratch directory, the diagnostics of the renderer, the console). *)
Theorem main_deterministic {World1 World2 : Type}
    (run1 : list str -> gmap str str -> World1 -> run_outcome * gmap str str * World1)
    (run2 : list str -> gmap str str -> World2 -> run_outcome * gmap str str * World2)
    (st1 : State World1) (st2 : State World2) (content : str) :
  files st1 !! input_file = Some content ->
  files st2 !! input_file = Some content ->
  exited_zero <$> main_outcomes run1 st1 = exited_zero <$> main_outcomes run2 st2 ->
  exists st1' st2' enhanced,
    main run1 st1 = Some st1' /\ main run2 st2 = Some st2'
    /\ files st1' !! enhanced_file = Some enhanced
    /\ files st2' !! enhanced_file = Some enhanced.
Proof.
  intros H1 H2 Hsame.
  destruct (main_enhanced run1 content st1 H1) as (st1' & Hm1 & Hf1).
  destruct (main_enhanced run2 content st2 H2) as (st2' & Hm2 & Hf2).
  exists st1', st2'. eexists. split; [exact Hm1|]. split; [exact Hm2|].
  split; [exact Hf1|]. rewrite Hf2. do 2 f_equal.
  symmetry. apply rendered_exited_zero, Hsame.
Qed.

Lemma length_extract_enhanced (content : str) (image_files : list str) :
  forallb plain image_files = true ->
  length (extract_mermaid_diagrams (create_enhanced_markdown content image_files))
  = length (extract_mermaid_diagrams content) - length image_files.
Proof.
  intros Hplain. rewrite (create_enhanced_markdown_weave content _ Hplain).
  pose proof (extract_weave _ Hplain content [] 0 inert_nil) as H. cbn [app] in H.
  rewrite H, length_drop. lia.
Qed.

(** C9, as amended. For every document with [n] fenced blocks and every
    sequence of [m] image paths none of which contains a backtick, the
    text [create_enhanced_markdown] returns has exactly [n - min n m]
    fenced blocks left. *)
Theorem remaining_blocks (content : str) (image_files : list str) :
  forallb plain image_files = true ->
  length (extract_mermaid_diagrams (create_enhanced_markdown content image_files))
  = length (extract_mermaid_diagrams content)
    - Nat.min (length (extract_mermaid_diagrams content)) (length image_files).
Proof.
  intros Hplain. rewrite (length_extract_enhanced content _ Hplain). lia.
Qed.

(** C10, as amended. For every document, with or without repeated
    bodies, and every image sequence that covers all [n] blocks and has
    no backtick in its paths, block number [i] of the document, and no
    other text, is replaced by the image reference of image [i]: the
    sections between the blocks are kept, every block is replaced once,
    in document order, and none remains. *)
Theorem duplicates_in_order (content : str) (image_files : list str) :
  forallb plain image_files = true ->
  length (extract_mermaid_diagrams content) <= length image_files ->
  (sections content).1.*2 = extract_mermaid_diagrams content
  /\ content = weave keep_block 0 (sections content).1 (sections content).2
  /\ create_enhanced_markdown content image_files
     = weave (fun i _ => image_ref i (default [] (image_files !! i))) 0
         (sections content).1 (sections content).2
  /\ extract_mermaid_diagrams (create_enhanced_markdown content image_files) = [].
Proof.
  intros Hplain Hcover.
  split; [symmetry; apply extract_sections|].
  split; [symmetry; apply weave_sections|]. split.
  - rewrite (create_enhanced_markdown_weave content _ Hplain).
    apply weave_ext. intros j body Hj. rewrite length_sections in Hj.
    unfold put_image.
    destruct (lookup_lt_is_Some_2 image_files j ltac:(lia)) as [img ->]. reflexivity.
  - pose proof (length_extract_enhanced content image_files Hplain) as H.
    apply length_zero_iff_nil. lia.
Qed.

(** ** Sample runs *)

Example extract_two_blocks :
  extract_mermaid_diagrams two_blocks = [lit "graph TD; A-->B"; lit "graph TD; C-->D"].
Proof. vm_compute. reflexivity. Qed.

(** The scenario of two blocks and a renderer that always succeeds. *)
Example main_two_blocks :
  (fun st => files st !! enhanced_file) <$> main render_ok (start_with two_blocks tt)
  = Some (Some (lit "# Doc" ++ [NL] ++ lit "![Diagram 1](/tmp/diagram_1.png)" ++ [NL]
                ++ lit "text" ++ [NL] ++ lit "![Diagram 2](/tmp/diagram_2.png)" ++ [NL])).
Proof. vm_compute. reflexivity. Qed.

Example main_one_block_console :
  console <$> main render_ok (start_with one_block tt)
  = Some [ [128202%N] ++ lit " Extracting Mermaid diagrams...";
           lit "Found 1 diagrams";
           [128193%N] ++ lit " Creating Mermaid files...";
           [128444%N; 65039%N] ++ lit "  Converting diagrams to images...";
           [10003%N] ++ lit " Created /tmp/diagram_1.png";
           [128221%N] ++ lit " Creating enhanced markdown...";
           [10003%N] ++ lit " Enhanced markdown saved to: /tmp/00-DEL-HigherEd-enhanced.md";
           [10003%N] ++ lit " Diagram images saved to: /tmp/diagram_*.png";
           [NL; 128194%N] ++ lit " Created files:";
           lit "   " ++ [8226%N] ++ lit " /tmp/diagram_1.png";
           [NL; 128214%N] ++ lit " To convert to PDF, you can use:";
           lit "   pandoc /tmp/00-DEL-HigherEd-enhanced.md -o /tmp/HigherEd-Taxonomy.pdf";
           lit "   or any markdown to PDF converter" ].
Proof. vm_compute. reflexivity. Qed.

Example strip_padded_body : strip padded_body = lit "graph TD".
Proof. vm_compute. reflexivity. Qed.

Example replace_all_occurrences :
  replace (lit ".mmd") (lit ".png") (-1) (lit "/a.mmd/b.mmd") = lit "/a.png/b.png".
Proof. vm_compute. reflexivity. Qed.

Example replace_empty_pattern :
  replace [] (lit "-") 2 (lit "abc") = lit "-a-bc".
Proof. vm_compute. reflexivity. Qed.

(** ** Instances of the claims *)

Lemma main_single_failure_witness :
  exists st', main render_fail (start_with one_block 0) = Some st'
    /\ files st' !! enhanced_file = Some one_block.
Proof.
  apply (main_single_failure render_fail (start_with one_block 0) one_block
           1%Z (lit "Parse error on line 1")).
  - vm_compute; reflexivity.
  - vm_compute; reflexivity.
  - vm_compute; reflexivity.
  - lia.
Defined.

Lemma no_blocks_identity_witness :
  extract_mermaid_diagrams (lit "# Title only") = []
  /\ forall image_files, create_enhanced_markdown (lit "# Title only") image_files
                         = lit "# Title only".
Proof.
  apply (no_blocks_identity (lit "# Title only")).
  intros a body b H. apply (f_equal length) in H.
  rewrite mermaid_block_fences, !length_app, length_fence_open, length_fence_close in H.
  simpl in H. lia.
Defined.

Lemma body_whitespace_witness :
  (exists a b, mermaid_block padded_body = a ++ fence_open ++ padded_body ++ fence_close ++ b)
  /\ files (create_mermaid_files (extract_mermaid_diagrams (mermaid_block padded_body))
              (start_with (mermaid_block padded_body) tt)).2
       !! mmd_name (0 + 1) = Some (strip padded_body)
  /\ stripped_of padded_body (strip padded_body).
Proof.
  apply (body_whitespace (mermaid_block padded_body)
           (start_with (mermaid_block padded_body) tt) 0 padded_body).
  vm_compute; reflexivity.
Defined.

Lemma main_deterministic_witness :
  exists st1' st2' enhanced,
    main render_ok (start_with two_blocks tt) = Some st1'
    /\ main render_quiet (start_dirty two_blocks) = Some st2'
    /\ files st1' !! enhanced_file = Some enhanced
    /\ files st2' !! enhanced_file = Some enhanced.
Proof.
  apply (main_deterministic render_ok render_quiet
           (start_with two_blocks tt) (start_dirty two_blocks) two_blocks);
    vm_compute; reflexivity.
Defined.

Lemma remaining_blocks_witness :
  length (extract_mermaid_diagrams (create_enhanced_markdown two_blocks [png_name 1]))
  = length (extract_mermaid_diagrams two_blocks)
    - Nat.min (length (extract_mermaid_diagrams two_blocks)) (length [png_name 1]).
Proof.
  apply (remaining_blocks two_blocks [png_name 1]). vm_compute; reflexivity.
Defined.

Lemma duplicates_in_order_witness :
  (sections twice_the_same).1.*2 = extract_mermaid_diagrams twice_the_same
  /\ twice_the_same
     = weave keep_block 0 (sections twice_the_same).1 (sections twice_the_same).2
  /\ create_enhanced_markdown twice_the_same [png_name 1; png_name 2]
     = weave (fun i _ => image_ref i (default [] ([png_name 1; png_name 2] !! i))) 0
         (sections twice_the_same).1 (sections twice_the_same).2
  /\ extract_mermaid_diagrams
       (create_enhanced_markdown twice_the_same [png_name 1; png_name 2]) = [].
Proof.
  apply (duplicates_in_order twice_the_same [png_name 1; png_name 2]).
  - vm_compute; reflexivity.
  - vm_compute. lia.
Defined.

(** C9 as stated fails: an image path may itself hold a fenced block,
    and the image reference then brings a block into the text. *)
Lemma remaining_blocks_counterexample :
  ~ (forall content image_files,
       length (extract_mermaid_diagrams (create_enhanced_markdown content image_files))
       = length (extract_mermaid_diagrams content)
         - Nat.min (length (extract_mermaid_diagrams content)) (length image_files)).
Proof.
  intros H. specialize (H (mermaid_block (lit "A")) [mermaid_block (lit "B")]).
  vm_compute in H. discriminate H.
Qed.

(** C10 as stated fails: when the first image path holds the repeated
    block, the second replacement lands inside the first image
    reference and the second block of the document is never replaced. *)
Lemma duplicates_in_order_counterexample :
  extract_mermaid_diagrams twice_the_same = [lit "A"; lit "A"]
  /\ create_enhanced_markdown twice_the_same [mermaid_block (lit "A"); lit "b.png"]
     = lit "![Diagram 1](![Diagram 2](b.png))" ++ [NL] ++ mermaid_block (lit "A")
  /\ create_enhanced_markdown twice_the_same [mermaid_block (lit "A"); lit "b.png"]
     <> weave (fun i _ => image_ref i
                 (default [] ([mermaid_block (lit "A"); lit "b.png"] !! i))) 0
          (sections twice_the_same).1 (sections twice_the_same).2.
Proof.
  split; [vm_compute; reflexivity|]. split; [vm_compute; reflexivity|].
  vm_compute. discriminate.
Qed.

(** ** Further properties of the extractor *)

Lemma split_first_None_absent (pat s : str) :
  split_first pat s = None -> forall k, strip_prefix pat (drop k s) = None.
Proof.
  induction s as [|c s IH]; cbn [split_first].
  - destruct (strip_prefix pat []) eqn:E; [discriminate|].
    intros _ k. rewrite drop_nil. exact E.
  - destruct (strip_prefix pat (c :: s)) eqn:E; [discriminate|].
    destruct (split_first pat s) as [[a b]|]; [discriminate|].
    intros _ [|k]; [exact E | apply IH; reflexivity].
Qed.

Lemma split_first_absent_None (pat s : str) :
  (forall a b, s <> a ++ pat ++ b) -> split_first pat s = None.
Proof.
  intros H. destruct (split_first pat s) as [[a b]|] eqn:E; [|reflexivity].
  apply split_first_Some in E as [E _]. exfalso. exact (H a b E).
Qed.

Lemma re_search_here (s after body rest : str) :
  strip_prefix fence_open s = Some after ->
  split_first fence_close after = Some (body, rest) ->
  re_search s = Some ([], body, rest).
Proof.
  intros H1 H2. destruct s; cbn [re_search]; rewrite H1, H2; reflexivity.
Qed.

(** A closing fence cannot start inside a text and end in the closing
    fence that follows it. *)
Lemma fence_close_no_overlap (u rest : str) :
  u <> [] -> strip_prefix fence_close u = None ->
  strip_prefix fence_close (u ++ fence_close ++ rest) = None.
Proof.
  change fence_close with [10; 96; 96; 96]%N.
  intros Hu H.
  destruct u as [|a [|b [|c [|e u]]]]; [contradiction|..];
    cbn [strip_prefix app] in *;
    repeat match goal with
           | |- context [(?x =? ?y)%N] =>
               destruct (N.eqb_spec x y); try subst; try reflexivity; try discriminate
           end.
Qed.

Lemma body_then_close (d rest : str) :
  split_first fence_close d = None ->
  split_first fence_close (d ++ fence_close ++ rest) = Some (d, rest).
Proof.
  intros H. apply split_first_leftmost. intros k Hk.
  rewrite drop_app_le by lia. apply fence_close_no_overlap.
  - intros E. apply (f_equal length) in E. rewrite length_drop in E. simpl in E. lia.
  - apply split_first_None_absent, H.
Qed.

(** X1. A body returned by the extractor never contains a closing fence:
    the lazy match stops at the first one, so searching the body for a
    closing fence finds nothing. *)
Theorem extracted_body_has_no_closing_fence (content : str) (j : nat) (d : str) :
  extract_mermaid_diagrams content !! j = Some d ->
  split_first fence_close d = None.
Proof.
  revert j d.
  induction content as [s E | s pre body rest E IH] using document_ind; intros j d;
    rewrite extract_mermaid_diagrams_eq, E.
  - rewrite lookup_nil. discriminate.
  - destruct j as [|j]; cbn [lookup list_lookup]; [|apply IH].
    intros [= <-]. apply split_first_absent_None. intros a b Hd.
    apply re_search_Some in E as (_ & Hc & _).
    apply split_first_Some in Hc as [_ Habs].
    assert (Hlt : length a < length body)
      by (rewrite Hd, !length_app, length_fence_close; lia).
    specialize (Habs (length a) Hlt). rewrite Hd in Habs.
    rewrite <- !app_assoc, drop_app_length, strip_prefix_app in Habs. discriminate.
Qed.

(** X2. Round trip: a document put together from texts without a
    backtick and fenced blocks whose bodies hold no closing fence gives
    back exactly these bodies, in order, followed by what the rest of the
    document holds. *)
Theorem extract_weave_roundtrip (segs : list (str * str)) (tail : str) (i : nat) :
  forallb (fun seg => plain seg.1) segs = true ->
  (forall seg a b, seg ∈ segs -> seg.2 <> a ++ fence_close ++ b) ->
  extract_mermaid_diagrams (weave keep_block i segs tail)
  = segs.*2 ++ extract_mermaid_diagrams tail.
Proof.
  revert i. induction segs as [|[pre body] segs IH]; intros i Hplain Hbody; [reflexivity|].
  cbn [forallb fst] in Hplain. apply andb_true_iff in Hplain as [Hpre Hplain].
  cbn [weave fmap list_fmap snd app]. unfold keep_block at 1.
  rewrite (extract_inert pre _ (inert_plain pre Hpre)).
  rewrite extract_mermaid_diagrams_eq, mermaid_block_fences, <- !app_assoc.
  rewrite (re_search_here _ (body ++ fence_close ++ weave keep_block (S i) segs tail)
             body (weave keep_block (S i) segs tail)).
  - f_equal. apply IH; [exact Hplain|].
    intros seg a b Hin. apply Hbody. right. exact Hin.
  - apply strip_prefix_app.
  - apply body_then_close, split_first_absent_None.
    intros a b. apply (Hbody (pre, body)). left.
Qed.

Lemma length_weave_keep (segs : list (str * str)) (tail : str) : forall i,
  15 * length segs + length (concat segs.*2) <= length (weave keep_block i segs tail).
Proof.
  induction segs as [|[pre body] segs IH]; intros i; cbn [weave]; [simpl; lia|].
  specialize (IH (S i)). unfold keep_block at 1.
  rewrite mermaid_block_fences, !length_app, length_fence_open, length_fence_close.
  cbn [length fmap list_fmap snd concat]. rewrite length_app. lia.
Qed.

(** X3. Every extracted block takes its body and fifteen characters of
    fences in the document: the document is at least as long as the
    bodies together plus fifteen characters for each. *)
Theorem extracted_bodies_fit (content : str) :
  15 * length (extract_mermaid_diagrams content)
  + length (concat (extract_mermaid_diagrams content)) <= length content.
Proof.
  pose proof (length_weave_keep (sections content).1 (sections content).2 0) as H.
  rewrite weave_sections, <- extract_sections, length_sections in H. exact H.
Qed.

(** ** Further properties of the substituter *)

Lemma enhance_loop_ext (image_files1 image_files2 diagrams : list str) :
  forall (i : nat) (t : str),
  (forall j, i <= j < i + length diagrams -> image_files1 !! j = image_files2 !! j) ->
  enhance_loop i diagrams image_files1 t = enhance_loop i diagrams image_files2 t.
Proof.
  induction diagrams as [|d ds IH]; intros i t H; cbn [enhance_loop]; [reflexivity|].
  rewrite (H i) by (cbn [length]; lia). apply IH.
  intros j Hj. apply H. cbn [length]. lia.
Qed.

(** X4. With image paths that hold no backtick, the substituter replaces
    the blocks whose index is within the image sequence, each by the
    reference to the image of its own index, and keeps every other
    character of the document, the blocks beyond the image sequence
    included. *)
Theorem substituter_replaces_prefix (content : str) (image_files : list str) :
  forallb plain image_files = true ->
  content = weave keep_block 0 (sections content).1 (sections content).2
  /\ create_enhanced_markdown content image_files
     = weave (fun i body =>
                if bool_decide (i < length image_files)
                then image_ref i (default [] (image_files !! i))
                else mermaid_block body)
         0 (sections content).1 (sections content).2.
Proof.
  intros Hplain. split; [symmetry; apply weave_sections|].
  rewrite (create_enhanced_markdown_weave content _ Hplain).
  apply weave_ext. intros j body _. unfold put_image. case_bool_decide as Hj.
  - destruct (lookup_lt_is_Some_2 image_files j Hj) as [img ->]. reflexivity.
  - rewrite lookup_ge_None_2 by lia. reflexivity.
Qed.

(** X5. Substituting again in a text in which every block has been
    replaced changes nothing, whatever the second image sequence is. *)
Theorem substituter_idempotent (content : str) (image_files image_files' : list str) :
  forallb plain image_files = true ->
  length (extract_mermaid_diagrams content) <= length image_files ->
  create_enhanced_markdown (create_enhanced_markdown content image_files) image_files'
  = create_enhanced_markdown content image_files.
Proof.
  intros Hplain Hcover.
  pose proof (length_extract_enhanced content image_files Hplain) as Hlen.
  unfold create_enhanced_markdown at 1.
  replace (extract_mermaid_diagrams (create_enhanced_markdown content image_files))
    with (@nil str) by (symmetry; apply length_zero_iff_nil; lia).
  reflexivity.
Qed.

(** X6. Only the first [n] image paths are used, [n] being the number
    of blocks of the document: image paths beyond them are ignored. *)
Theorem substituter_ignores_surplus_images (content : str) (image_files : list str) :
  create_enhanced_markdown content image_files
  = create_enhanced_markdown content
      (take (length (extract_mermaid_diagrams content)) image_files).
Proof.
  unfold create_enhanced_markdown. apply enhance_loop_ext.
  intros j Hj. symmetry. apply lookup_take_lt. lia.
Qed.

(** ** Further properties of the materializer *)

Lemma lstrip_spaces (l s : str) :
  forallb isspace l = true -> lstrip (l ++ s) = lstrip s.
Proof.
  induction l as [|c l IH]; intros H; [reflexivity|].
  cbn [forallb] in H. apply andb_true_iff in H as [Hc Hl].
  cbn [app lstrip]. rewrite Hc. apply IH, Hl.
Qed.

Lemma forallb_rev (P : N -> bool) (l : str) : forallb P (rev l) = forallb P l.
Proof.
  induction l as [|c l IH]; [reflexivity|].
  cbn [rev]. rewrite forallb_app, IH. cbn [forallb]. destruct (P c), (forallb P l); reflexivity.
Qed.

Lemma rstrip_spaces (s r : str) :
  forallb isspace r = true -> rstrip (s ++ r) = rstrip s.
Proof.
  intros H. unfold rstrip. rewrite rev_app_distr, lstrip_spaces; [reflexivity|].
  rewrite forallb_rev. exact H.
Qed.

Lemma lstrip_all_space (d : str) : forallb isspace d = true -> lstrip d = [].
Proof.
  intros H. rewrite <- (app_nil_r d), lstrip_spaces by exact H. reflexivity.
Qed.

Lemma lstrip_app (d r : str) :
  lstrip (d ++ r) = if forallb isspace d then lstrip r else lstrip d ++ r.
Proof.
  induction d as [|c d IH]; [reflexivity|].
  cbn [app lstrip forallb]. destruct (isspace c); [exact IH | reflexivity].
Qed.

Lemma strip_padding (l d r : str) :
  forallb isspace l = true -> forallb isspace r = true ->
  strip (l ++ d ++ r) = strip d.
Proof.
  intros Hl Hr. unfold strip. rewrite lstrip_spaces by exact Hl.
  rewrite lstrip_app. destruct (forallb isspace d) eqn:Hd.
  - rewrite (lstrip_all_space r Hr), (lstrip_all_space d Hd). reflexivity.
  - apply rstrip_spaces, Hr.
Qed.

Lemma create_mermaid_files_loop_strip {World} (ds1 : list str) :
  forall (ds2 : list str) (i : nat) (acc : list str) (st : State World),
  strip <$> ds1 = strip <$> ds2 ->
  create_mermaid_files_loop i ds1 acc st = create_mermaid_files_loop i ds2 acc st.
Proof.
  induction ds1 as [|d1 ds1 IH]; intros [|d2 ds2] i acc st H; try discriminate H;
    [reflexivity|].
  cbn [fmap list_fmap] in H. injection H as Hd Hds.
  cbn [create_mermaid_files_loop]. rewrite Hd. apply IH, Hds.
Qed.

(** X7. Whitespace around a body does not reach the disk: two body
    sequences that differ only in the whitespace before and after each
    body make the materializer write the same files and return the same
    paths. *)
Theorem materializer_ignores_padding {World : Type} (diagrams padded : list str)
    (st : State World) :
  Forall2 (fun d p => exists l r, p = l ++ d ++ r
                        /\ forallb isspace l = true /\ forallb isspace r = true)
    diagrams padded ->
  create_mermaid_files padded st = create_mermaid_files diagrams st.
Proof.
  intros H. unfold create_mermaid_files. apply create_mermaid_files_loop_strip.
  induction H as [|d p ds ps (l & r & -> & Hl & Hr) _ IH]; [reflexivity|].
  cbn [fmap list_fmap]. rewrite (strip_padding l d r Hl Hr). f_equal. exact IH.
Qed.

(** X8. A body of whitespace only gives an empty file. *)
Theorem materializer_blank_body {World : Type} (diagrams : list str) (st : State World)
    (j : nat) (d : str) :
  diagrams !! j = Some d -> forallb isspace d = true ->
  files (create_mermaid_files diagrams st).2 !! mmd_name (j + 1) = Some [].
Proof.
  intros Hj Hd. unfold create_mermaid_files.
  pose proof (create_mermaid_files_loop_spec diagrams 0 [] st) as H.
  cbn zeta in H. destruct H as (_ & _ & _ & H & _).
  replace (j + 1) with (0 + 1 + j) by lia. rewrite (H j d Hj).
  unfold strip. rewrite (lstrip_all_space d Hd). reflexivity.
Qed.

(** X9. Running the materializer again on the same bodies returns the
    same paths and leaves the file system as the first run left it; it
    prints nothing and leaves the outside world alone. *)
Theorem materializer_idempotent {World : Type} (diagrams : list str) (st : State World) :
  let r := create_mermaid_files diagrams st in
  let r' := create_mermaid_files diagrams r.2 in
  r'.1 = r.1 /\ files r'.2 = files r.2
  /\ console r'.2 = console st /\ world r'.2 = world st.
Proof.
  cbn zeta. unfold create_mermaid_files.
  pose proof (create_mermaid_files_loop_spec diagrams 0 [] st) as H. cbn zeta in H.
  destruct (create_mermaid_files_loop 0 diagrams [] st) as [paths st1].
  cbn [fst snd] in *.
  pose proof (create_mermaid_files_loop_spec diagrams 0 [] st1) as H'. cbn zeta in H'.
  destruct (create_mermaid_files_loop 0 diagrams [] st1) as [paths' st2].
  cbn [fst snd] in *.
  destruct H as (-> & Hc & Hw & Hin & Hout).
  destruct H' as (-> & Hc' & Hw' & Hin' & Hout').
  split; [reflexivity|]. split; [|split; congruence].
  apply map_eq. intros p.
  destruct (decide (p ∈ mmd_name <$> seq (0 + 1) (length diagrams))) as [Hp|Hp].
  - apply list_elem_of_fmap in Hp as (k & -> & Hk). apply elem_of_seq in Hk.
    destruct (lookup_lt_is_Some_2 diagrams (k - 1) ltac:(lia)) as [d Hd].
    pose proof (Hin _ _ Hd) as E. pose proof (Hin' _ _ Hd) as E'.
    replace (0 + 1 + (k - 1)) with k in * by lia. congruence.
  - apply Hout'. intros j Hj ->. apply Hp.
    apply list_elem_of_fmap. exists (0 + 1 + j). split; [reflexivity|].
    apply elem_of_seq. lia.
Qed.

(** ** Further properties of the renderer invoker *)

Lemma replace_absent (old new s : str) (count : Z) :
  old <> [] -> split_first old s = None -> replace old new count s = s.
Proof.
  intros Hold H. unfold replace. destruct old as [|o old]; [contradiction|].
  cbn [replace_fuel]. rewrite H. destruct (count =? 0)%Z; reflexivity.
Qed.

Lemma rendered_sublist (diagram_files : list str) : forall rs : list run_outcome,
  rendered diagram_files rs
    `sublist_of` (replace (lit ".mmd") (lit ".png") (-1) <$> diagram_files).
Proof.
  induction diagram_files as [|f fs IH]; intros rs; [apply sublist_nil_l|].
  destruct rs as [|r rs]; [apply sublist_nil_l|].
  cbn [rendered fmap list_fmap]. destruct (exited_zero r).
  - apply sublist_skip, IH.
  - apply sublist_cons, IH.
Qed.

(** X10. The renderer invoker returns a subsequence of the image paths
    derived from its source files, in their order, so never more paths
    than files; and it prints exactly one line per source file. *)
Theorem renderer_returns_subsequence {World : Type}
    (subprocess_run : list str -> gmap str str -> World -> run_outcome * gmap str str * World)
    (diagram_files : list str) (st : State World) :
  let r := convert_diagrams_to_images subprocess_run diagram_files st in
  r.1 `sublist_of` (replace (lit ".mmd") (lit ".png") (-1) <$> diagram_files)
  /\ length r.1 <= length diagram_files
  /\ length (console r.2) = length (console st) + length diagram_files.
Proof.
  cbn zeta. unfold convert_diagrams_to_images.
  pose proof (convert_loop_spec subprocess_run diagram_files [] st) as H. cbn zeta in H.
  destruct H as [H1 H2]. cbn [app] in H1.
  pose proof (rendered_sublist diagram_files (outcomes subprocess_run diagram_files st)) as Hs.
  rewrite H1, H2. split; [exact Hs|]. split.
  - apply sublist_length in Hs. rewrite length_fmap in Hs. exact Hs.
  - rewrite length_app, length_zip_with, length_outcomes. lia.
Qed.

(** X11. For a source path in which [.mmd] does not occur, the image
    path is the source path itself: the renderer is told to write over
    its input, and a successful call returns the source path. *)
Theorem renderer_source_without_suffix {World : Type}
    (subprocess_run : list str -> gmap str str -> World -> run_outcome * gmap str str * World)
    (mmd_file : str) (st : State World) :
  (forall a b, mmd_file <> a ++ lit ".mmd" ++ b) ->
  (invoke subprocess_run mmd_file st).1
  = (subprocess_run (mmdc_argv mmd_file mmd_file) (files st) (world st)).1.1
  /\ (convert_diagrams_to_images subprocess_run [mmd_file] st).1
     = if exited_zero (invoke subprocess_run mmd_file st).1 then [mmd_file] else [].
Proof.
  intros H. apply split_first_absent_None in H.
  assert (E : replace (lit ".mmd") (lit ".png") (-1) mmd_file = mmd_file)
    by (apply replace_absent; [discriminate | exact H]).
  split.
  - unfold invoke. rewrite E. destruct (subprocess_run _ _ _) as [[r fs] w]. reflexivity.
  - unfold convert_diagrams_to_images.
    pose proof (convert_loop_spec subprocess_run [mmd_file] [] st) as Hc. cbn zeta in Hc.
    destruct Hc as [Hc _]. rewrite Hc. cbn [app outcomes].
    destruct (invoke subprocess_run mmd_file st) as [r st1]. cbn [fst rendered].
    rewrite E. destruct (exited_zero r); reflexivity.
Qed.

(** ** Further properties of the script *)

Lemma rendered_names (rs : list run_outcome) : forall k : nat,
  rendered (mmd_name <$> seq k (length rs)) rs = png_name <$> succeeded_from k rs.
Proof.
  induction rs as [|r rs IH]; intros k; [reflexivity|].
  cbn [length seq fmap list_fmap rendered succeeded_from].
  rewrite png_of_mmd_name, IH. destruct (exited_zero r); reflexivity.
Qed.


Lemma succeeded_from_all (rs : list run_outcome) : forall k : nat,
  forallb exited_zero rs = true -> succeeded_from k rs = seq k (length rs).
Proof.
  induction rs as [|r rs IH]; intros k H; [reflexivity|].
  cbn [forallb] in H. apply andb_true_iff in H as [Hr Hrs].
  cbn [succeeded_from length seq]. rewrite Hr, (IH (S k) Hrs). reflexivity.
Qed.

Lemma forallb_plain_png (l : list nat) : forallb plain (png_name <$> l) = true.
Proof.
  apply forallb_forall. intros x Hx. apply list_elem_of_In, list_elem_of_fmap in Hx.
  destruct Hx as (k & -> & _). apply png_name_plain.
Qed.

(** What [main] writes, by the ordinals of the calls that succeeded. *)
Lemma main_enhanced_compacted {World : Type}
    (subprocess_run : list str -> gmap str str -> World -> run_outcome * gmap str str * World)
    (st : State World) (content : str) :
  files st !! input_file = Some content ->
  exists st', main subprocess_run st = Some st'
    /\ files st' !! enhanced_file
       = Some (weave (fun i body =>
                        match succeeded_from 1 (main_outcomes subprocess_run st) !! i with
                        | Some k => image_ref i (png_name k)
                        | None => mermaid_block body
                        end)
                 0 (sections content).1 (sections content).2).
Proof.
  intros Hin.
  destruct (main_enhanced subprocess_run content st Hin) as (st' & Hmain & Hfile).
  pose proof (length_main_outcomes subprocess_run content st Hin) as Hlen.
  exists st'. split; [exact Hmain|].
  rewrite Hfile, <- Hlen, rendered_names.
  rewrite (create_enhanced_markdown_weave content _ (forallb_plain_png _)).
  f_equal. apply weave_ext. intros j body _.
  unfold put_image. rewrite list_lookup_fmap.
  destruct (succeeded_from 1 (main_outcomes subprocess_run st) !! j); reflexivity.
Qed.


(** X13. When the first render call fails and all the others succeed,
    every block but the last is replaced by the image of the block that
    follows it, and the last block is kept. *)
Theorem main_first_failure_shifts {World : Type}
    (subprocess_run : list str -> gmap str str -> World -> run_outcome * gmap str str * World)
    (st : State World) (content : str) (r : run_outcome) (rs : list run_outcome) :
  files st !! input_file = Some content ->
  main_outcomes subprocess_run st = r :: rs ->
  exited_zero r = false ->
  forallb exited_zero rs = true ->
  exists st', main subprocess_run st = Some st'
    /\ files st' !! enhanced_file
       = Some (weave (fun i body =>
                        if bool_decide (i < length rs)
                        then image_ref i (png_name (i + 2))
                        else mermaid_block body)
                 0 (sections content).1 (sections content).2).
Proof.
  intros Hin Hout Hr Hrs.
  destruct (main_enhanced_compacted subprocess_run st content Hin) as (st' & Hmain & Hfile).
  exists st'. split; [exact Hmain|].
  rewrite Hfile, Hout. cbn [succeeded_from]. rewrite Hr, (succeeded_from_all rs 2 Hrs).
  f_equal. apply weave_ext. intros j body _. case_bool_decide as Hj.
  - rewrite lookup_seq_lt by exact Hj. replace (2 + j) with (j + 2) by lia. reflexivity.
  - rewrite lookup_ge_None_2 by (rewrite length_seq; lia). reflexivity.
Qed.

Lemma list_created_spec {World} (image_files : list str) : forall st : State World,
  console (list_created image_files st)
  = console st
    ++ (created_line <$> filter (fun img => is_Some (files st !! img)) image_files).
Proof.
  induction image_files as [|img imgs IH]; intros st; cbn [list_created].
  - rewrite app_nil_r. reflexivity.
  - rewrite IH. destruct (files st !! img) as [x|] eqn:E.
    + rewrite filter_cons_True by (rewrite E; eexists; reflexivity).
      cbn [print console files fmap list_fmap]. rewrite <- app_assoc. reflexivity.
    + rewrite filter_cons_False by (rewrite E; apply is_Some_None). reflexivity.
Qed.

(** X15. What a run of [main] prints, line by line: four opening lines
    with the number of blocks found, one notice per render call, four
    lines on the files written, one line for each returned image path
    that exists in the file system at the end of the run, in order, and
    three closing lines. *)
Theorem main_console_lines {World : Type}
    (subprocess_run : list str -> gmap str str -> World -> run_outcome * gmap str str * World)
    (st : State World) (content : str) :
  files st !! input_file = Some content ->
  exists st', main subprocess_run st = Some st'
    /\ console st'
       = console st
         ++ [ [128202%N] ++ lit " Extracting Mermaid diagrams...";
              lit "Found " ++ str_of_nat (length (extract_mermaid_diagrams content))
                ++ lit " diagrams";
              [128193%N] ++ lit " Creating Mermaid files...";
              [128444%N; 65039%N] ++ lit "  Converting diagrams to images..." ]
         ++ zip_with notice
              (mmd_name <$> seq 1 (length (extract_mermaid_diagrams content)))
              (main_outcomes subprocess_run st)
         ++ [ [128221%N] ++ lit " Creating enhanced markdown...";
              [10003%N] ++ lit " Enhanced markdown saved to: " ++ enhanced_file;
              [10003%N] ++ lit " Diagram images saved to: /tmp/diagram_*.png";
              [NL; 128194%N] ++ lit " Created files:" ]
         ++ (created_line <$>
               filter (fun img => is_Some (files st' !! img))
                 (png_name <$> succeeded_from 1 (main_outcomes subprocess_run st)))
         ++ [ [NL; 128214%N] ++ lit " To convert to PDF, you can use:";
              lit "   pandoc " ++ enhanced_file ++ lit " -o /tmp/HigherEd-Taxonomy.pdf";
              lit "   or any markdown to PDF converter" ].
Proof.
  intros Hin.
  pose proof (length_main_outcomes subprocess_run content st Hin) as Hlen.
  unfold main, main_outcomes in *. rewrite Hin in *.
  pose proof (main_materialized_files content st) as Hm.
  assert (Hcm : console (main_materialized content st).2
                = console st
                  ++ [ [128202%N] ++ lit " Extracting Mermaid diagrams...";
                       lit "Found " ++ str_of_nat (length (extract_mermaid_diagrams content))
                         ++ lit " diagrams";
                       [128193%N] ++ lit " Creating Mermaid files...";
                       [128444%N; 65039%N] ++ lit "  Converting diagrams to images..." ]).
  { unfold main_materialized, create_mermaid_files.
    match goal with
    | |- context [create_mermaid_files_loop 0 ?ds [] ?s] =>
        pose proof (create_mermaid_files_loop_spec ds 0 [] s) as H;
        destruct (create_mermaid_files_loop 0 ds [] s) as [dfs st0]
    end.
    cbn zeta in H. destruct H as (_ & Hc & _). cbn [snd print console] in *.
    rewrite Hc, <- !app_assoc. reflexivity. }
  destruct (main_materialized content st) as [dfs stm]. cbn [fst snd] in *. subst dfs.
  unfold convert_diagrams_to_images.
  match goal with
  | |- context [convert_loop subprocess_run ?fs [] stm] =>
      pose proof (convert_loop_spec subprocess_run fs [] stm) as H;
      destruct (convert_loop subprocess_run fs [] stm) as [imgs stc]
  end.
  cbn zeta in H. destruct H as [H1 H2]. cbn [fst snd app] in *. subst imgs.
  eexists. split; [reflexivity|].
  cbn [print console files]. rewrite list_created_spec, files_list_created.
  cbn [print write_file console files].
  match goal with
  | |- context [rendered ?names ?outs] =>
      assert (Hr : rendered names outs = png_name <$> succeeded_from 1 outs)
        by (rewrite <- Hlen at 1; apply rendered_names)
  end.
  rewrite H2, Hcm, Hr, <- !app_assoc. reflexivity.
Qed.

(** X16. A document in which no closing fence occurs, such as one whose
    only block is not terminated, has no diagrams, and the substituter
    returns it unchanged. *)
Theorem unterminated_block_ignored (content : str) :
  (forall a b, content <> a ++ fence_close ++ b) ->
  extract_mermaid_diagrams content = []
  /\ forall image_files, create_enhanced_markdown content image_files = content.
Proof.
  intros H.
  assert (E : re_search content = None).
  { apply re_search_None. intros a body b Hc. rewrite mermaid_block_fences in Hc.
    apply (H (a ++ fence_open ++ body) b). rewrite Hc, <- !app_assoc. reflexivity. }
  assert (Ex : extract_mermaid_diagrams content = [])
    by (rewrite extract_mermaid_diagrams_eq, E; reflexivity).
  split; [exact Ex|]. intros image_files.
  unfold create_enhanced_markdown. rewrite Ex. reflexivity.
Qed.

(** X17. For a document without blocks, [main] never calls the renderer:
    the outside world is left as it was, and the only change to the file
    system is the enhanced file, a copy of the input. *)
Theorem main_without_blocks {World : Type}
    (subprocess_run : list str -> gmap str str -> World -> run_outcome * gmap str str * World)
    (st : State World) (content : str) :
  files st !! input_file = Some content ->
  extract_mermaid_diagrams content = [] ->
  main_outcomes subprocess_run st = []
  /\ exists st', main subprocess_run st = Some st'
       /\ files st' = <[enhanced_file := content]> (files st)
       /\ world st' = world st.
Proof.
  intros Hin Hex. unfold main_outcomes, main. rewrite Hin.
  unfold main_materialized, create_mermaid_files, convert_diagrams_to_images,
    create_enhanced_markdown.
  rewrite Hex.
  cbn [create_mermaid_files_loop convert_loop outcomes enhance_loop list_created
       print write_file files console world fst snd].
  split; [reflexivity|]. eexists. split; [reflexivity|]. split; reflexivity.
Qed.

(** ** Instances of the further properties *)

(** Three blocks, the first render call failing: the first two blocks
    get the images of the second and third, the third block stays. *)
Example main_three_blocks_first_fails :
  (fun st => files st !! enhanced_file)
    <$> main render_first_fails (start_with three_blocks 0)
  = Some (Some (lit "![Diagram 1](/tmp/diagram_2.png)x![Diagram 2](/tmp/diagram_3.png)y"
                ++ mermaid_block (lit "C"))).
Proof. vm_compute. reflexivity. Qed.

Lemma extracted_body_has_no_closing_fence_witness :
  split_first fence_close (lit "graph TD; A-->B") = None.
Proof.
  apply (extracted_body_has_no_closing_fence two_blocks 0 (lit "graph TD; A-->B")).
  vm_compute; reflexivity.
Defined.

Lemma extract_weave_roundtrip_witness :
  extract_mermaid_diagrams
    (weave keep_block 0 [(lit "intro ", lit "A"); (lit " mid ", lit "B")] (lit " end"))
  = [(lit "intro ", lit "A"); (lit " mid ", lit "B")].*2
    ++ extract_mermaid_diagrams (lit " end").
Proof.
  apply (extract_weave_roundtrip [(lit "intro ", lit "A"); (lit " mid ", lit "B")]
           (lit " end") 0).
  - vm_compute; reflexivity.
  - intros seg a b Hin H.
    apply (split_first_None fence_close a b). rewrite <- H.
    apply elem_of_cons in Hin as [->|Hin]; [vm_compute; reflexivity|].
    apply elem_of_cons in Hin as [->|Hin]; [vm_compute; reflexivity|].
    apply elem_of_nil in Hin. contradiction.
Defined.

Lemma substituter_replaces_prefix_witness :
  two_blocks = weave keep_block 0 (sections two_blocks).1 (sections two_blocks).2
  /\ create_enhanced_markdown two_blocks [png_name 1]
     = weave (fun i body =>
                if bool_decide (i < length [png_name 1])
                then image_ref i (default [] ([png_name 1] !! i))
                else mermaid_block body)
         0 (sections two_blocks).1 (sections two_blocks).2.
Proof.
  apply (substituter_replaces_prefix two_blocks [png_name 1]). vm_compute; reflexivity.
Defined.

Lemma substituter_idempotent_witness :
  create_enhanced_markdown
    (create_enhanced_markdown two_blocks [png_name 1; png_name 2]) [lit "other.png"]
  = create_enhanced_markdown two_blocks [png_name 1; png_name 2].
Proof.
  apply (substituter_idempotent two_blocks [png_name 1; png_name 2] [lit "other.png"]).
  - vm_compute; reflexivity.
  - vm_compute. lia.
Defined.

Lemma materializer_ignores_padding_witness :
  create_mermaid_files [lit "  " ++ lit "graph TD" ++ [NL]] (start_with one_block tt)
  = create_mermaid_files [lit "graph TD"] (start_with one_block tt).
Proof.
  apply (materializer_ignores_padding [lit "graph TD"]
           [lit "  " ++ lit "graph TD" ++ [NL]] (start_with one_block tt)).
  constructor; [|constructor].
  exists (lit "  "), [NL]. repeat split; reflexivity.
Defined.

Lemma materializer_blank_body_witness :
  files (create_mermaid_files [lit "A"; lit "  " ++ [NL]] (start_with one_block tt)).2
    !! mmd_name (1 + 1) = Some [].
Proof.
  apply (materializer_blank_body [lit "A"; lit "  " ++ [NL]] (start_with one_block tt)
           1 (lit "  " ++ [NL])); vm_compute; reflexivity.
Defined.

Lemma renderer_source_without_suffix_witness :
  (invoke render_ok (lit "/tmp/diagram") (start_with one_block tt)).1
  = (render_ok (mmdc_argv (lit "/tmp/diagram") (lit "/tmp/diagram"))
       (files (start_with one_block tt)) (world (start_with one_block tt))).1.1
  /\ (convert_diagrams_to_images render_ok [lit "/tmp/diagram"] (start_with one_block tt)).1
     = if exited_zero (invoke render_ok (lit "/tmp/diagram") (start_with one_block tt)).1
       then [lit "/tmp/diagram"] else [].
Proof.
  apply (renderer_source_without_suffix render_ok (lit "/tmp/diagram")
           (start_with one_block tt)).
  intros a b H. apply (split_first_None (lit ".mmd") a b). rewrite <- H.
  vm_compute; reflexivity.
Defined.


Lemma main_first_failure_shifts_witness :
  exists st', main render_first_fails (start_with three_blocks 0) = Some st'
    /\ files st' !! enhanced_file
       = Some (weave (fun i body =>
                        if bool_decide (i < length [Completed 0 []; Completed 0 []])
                        then image_ref i (png_name (i + 2))
                        else mermaid_block body)
                 0 (sections three_blocks).1 (sections three_blocks).2).
Proof.
  apply (main_first_failure_shifts render_first_fails (start_with three_blocks 0)
           three_blocks (Completed 2 (lit "syntax error"))
           [Completed 0 []; Completed 0 []]); vm_compute; reflexivity.
Defined.

Lemma main_console_lines_witness :
  exists st', main render_ok (start_with one_block tt) = Some st'
    /\ console st'
       = console (start_with one_block tt)
         ++ [ [128202%N] ++ lit " Extracting Mermaid diagrams...";
              lit "Found " ++ str_of_nat (length (extract_mermaid_diagrams one_block))
                ++ lit " diagrams";
              [128193%N] ++ lit " Creating Mermaid files...";
              [128444%N; 65039%N] ++ lit "  Converting diagrams to images..." ]
         ++ zip_with notice
              (mmd_name <$> seq 1 (length (extract_mermaid_diagrams one_block)))
              (main_outcomes render_ok (start_with one_block tt))
         ++ [ [128221%N] ++ lit " Creating enhanced markdown...";
              [10003%N] ++ lit " Enhanced markdown saved to: " ++ enhanced_file;
              [10003%N] ++ lit " Diagram images saved to: /tmp/diagram_*.png";
              [NL; 128194%N] ++ lit " Created files:" ]
         ++ (created_line <$>
               filter (fun img => is_Some (files st' !! img))
                 (png_name <$> succeeded_from 1
                                 (main_outcomes render_ok (start_with one_block tt))))
         ++ [ [NL; 128214%N] ++ lit " To convert to PDF, you can use:";
              lit "   pandoc " ++ enhanced_file ++ lit " -o /tmp/HigherEd-Taxonomy.pdf";
              lit "   or any markdown to PDF converter" ].
Proof.
  apply (main_console_lines render_ok (start_with one_block tt) one_block).
  vm_compute; reflexivity.
Defined.

Lemma unterminated_block_ignored_witness :
  extract_mermaid_diagrams (fence_open ++ lit "graph TD; A-->B") = []
  /\ forall image_files,
       create_enhanced_markdown (fence_open ++ lit "graph TD; A-->B") image_files
       = fence_open ++ lit "graph TD; A-->B".
Proof.
  apply (unterminated_block_ignored (fence_open ++ lit "graph TD; A-->B")).
  intros a b H. apply (split_first_None fence_close a b). rewrite <- H.
  vm_compute; reflexivity.
Defined.

Lemma main_without_blocks_witness :
  main_outcomes render_fail (start_with (lit "# Title only") 0) = []
  /\ exists st', main render_fail (start_with (lit "# Title only") 0) = Some st'
       /\ files st'
          = <[enhanced_file := lit "# Title only"]>
              (files (start_with (lit "# Title only") 0))
       /\ world st' = world (start_with (lit "# Title only") 0).
Proof.
  apply (main_without_blocks render_fail (start_with (lit "# Title only") 0)
           (lit "# Title only")); vm_compute; reflexivity.
Defined.

(** ** The renderer invoker against the calls of the renderer *)

Lemma convert_loop_calls {World : Type}
    (subprocess_run : list str -> gmap str str -> World -> run_outcome * gmap str str * World)
    (diagram_files : list str) :
  forall (acc : list str) (st : State World),
  let '(rs, fs', w') := renderer_calls subprocess_run diagram_files (files st) (world st) in
  let r := convert_loop subprocess_run diagram_files acc st in
  length rs = length diagram_files
  /\ r.1 = acc ++ rendered diagram_files rs
  /\ console r.2 = console st ++ zip_with notice diagram_files rs
  /\ files r.2 = fs' /\ world r.2 = w'.
Proof.
  induction diagram_files as [|f dfs IH]; intros acc st.
  - cbn [renderer_calls convert_loop rendered zip_with fst snd length].
    rewrite !app_nil_r. repeat split.
  - cbn [renderer_calls convert_loop]. unfold invoke, mmdc_argv. cbv zeta.
    destruct (subprocess_run _ (files st) (world st)) as [[r fs1] w1].
    assert (Hstep : forall acc' line,
              let '(rs, fs', w') := renderer_calls subprocess_run dfs fs1 w1 in
              let r' := convert_loop subprocess_run dfs acc'
                          (print line (mkState fs1 (console st) w1)) in
              length rs = length dfs
              /\ r'.1 = acc' ++ rendered dfs rs
              /\ console r'.2 = (console st ++ [line]) ++ zip_with notice dfs rs
              /\ files r'.2 = fs' /\ world r'.2 = w').
    { intros acc' line. exact (IH acc' (print line (mkState fs1 (console st) w1))). }
    destruct (renderer_calls subprocess_run dfs fs1 w1) as [[rs fs'] w'].
    destruct r as [returncode stderr | | e];
      cbn [length rendered zip_with notice exited_zero].
    + destruct (returncode =? 0)%Z.
      * destruct (Hstep (acc ++ [replace (lit ".mmd") (lit ".png") (-1) f])
                    ([10003%N] ++ lit " Created "
                       ++ replace (lit ".mmd") (lit ".png") (-1) f))
          as (H0 & H1 & H2 & H3 & H4).
        rewrite H0, H1, H2, H3, H4, <- !app_assoc. repeat split; reflexivity.
      * destruct (Hstep acc
                    ([10007%N] ++ lit " Failed to create "
                       ++ replace (lit ".mmd") (lit ".png") (-1) f ++ lit ": " ++ stderr))
          as (H0 & H1 & H2 & H3 & H4).
        rewrite H0, H1, H2, H3, H4, <- !app_assoc. repeat split; reflexivity.
    + destruct (Hstep acc ([10007%N] ++ lit " Timeout converting " ++ f))
        as (H0 & H1 & H2 & H3 & H4).
      rewrite H0, H1, H2, H3, H4, <- !app_assoc. repeat split; reflexivity.
    + destruct (Hstep acc ([10007%N] ++ lit " Error converting " ++ f ++ lit ": " ++ e))
        as (H0 & H1 & H2 & H3 & H4).
      rewrite H0, H1, H2, H3, H4, <- !app_assoc. repeat split; reflexivity.
Qed.

(** C2. For every sequence of source files and every behaviour of the
    renderer, [convert_diagrams_to_images] makes the calls of the
    renderer one after the other, one per file; it returns the image
    paths of exactly the calls that exited with status zero, in the
    order processed and without their ordinals; a call that exits with
    another status, exceeds the wait time or raises another error adds
    no path; one notice is printed per file and the loop goes on to the
    end, leaving the file system and the world as the last call left
    them. *)
Theorem convert_diagrams_to_images_compacts {World : Type}
    (subprocess_run : list str -> gmap str str -> World -> run_outcome * gmap str str * World)
    (diagram_files : list str) (st : State World) :
  let '(rs, fs', w') := renderer_calls subprocess_run diagram_files (files st) (world st) in
  let r := convert_diagrams_to_images subprocess_run diagram_files st in
  length rs = length diagram_files
  /\ r.1 = rendered diagram_files rs
  /\ console r.2 = console st ++ zip_with notice diagram_files rs
  /\ files r.2 = fs' /\ world r.2 = w'.
Proof.
  exact (convert_loop_calls subprocess_run diagram_files [] st).
Qed.

(** Three calls of a renderer that fails on its first and third call:
    only the second image path is returned. *)
Example convert_alternate :
  (convert_diagrams_to_images render_alternate [mmd_name 1; mmd_name 2; mmd_name 3]
     (start_with one_block 0)).1
  = [png_name 2].
Proof. vm_compute. reflexivity. Qed.

Lemma outcomes_calls {World : Type}
    (subprocess_run : list str -> gmap str str -> World -> run_outcome * gmap str str * World)
    (diagram_files : list str) : forall st : State World,
  outcomes subprocess_run diagram_files st
  = (renderer_calls subprocess_run diagram_files (files st) (world st)).1.1.
Proof.
  induction diagram_files as [|f dfs IH]; intros st; [reflexivity|].
  cbn [outcomes renderer_calls]. unfold invoke, mmdc_argv. cbv zeta.
  destruct (subprocess_run _ (files st) (world st)) as [[r fs1] w1].
  rewrite IH. cbn [print files world].
  destruct (renderer_calls subprocess_run dfs fs1 w1) as [[rs fs'] w']. reflexivity.
Qed.

(** ** Documents said without the extractor *)

(** An opening fence cannot start inside a text and end in the opening
    fence that follows it. *)
Lemma fence_open_no_overlap (u rest : str) :
  u <> [] -> strip_prefix fence_open u = None ->
  strip_prefix fence_open (u ++ fence_open ++ rest) = None.
Proof.
  change fence_open with [96; 96; 96; 109; 101; 114; 109; 97; 105; 100; 10]%N.
  intros Hu H.
  destruct u as [|a1 [|a2 [|a3 [|a4 [|a5 [|a6 [|a7 [|a8 [|a9 [|a10 [|a11 u]]]]]]]]]]];
    [contradiction|..];
    cbn [strip_prefix app] in *;
    repeat match goal with
           | |- context [(?x =? ?y)%N] =>
               destruct (N.eqb_spec x y); try subst; try reflexivity; try discriminate
           end.
Qed.

Lemma absent_before_no_occurrence (pre rest : str) :
  (forall a b, pre <> a ++ fence_open ++ b) ->
  absent_before fence_open (length pre) (pre ++ fence_open ++ rest).
Proof.
  intros H k Hk. rewrite drop_app_le by lia.
  apply fence_open_no_overlap.
  - intros E. apply (f_equal length) in E. rewrite length_drop in E. simpl in E. lia.
  - destruct (strip_prefix fence_open (drop k pre)) as [r|] eqn:E; [|reflexivity].
    apply strip_prefix_Some in E. exfalso. apply (H (take k pre) r).
    rewrite <- E. symmetry. apply take_drop.
Qed.

Lemma re_search_skip (pre s : str) :
  absent_before fence_open (length pre) (pre ++ s) ->
  re_search (pre ++ s) =
    match re_search s with
    | Some (p, body, rest) => Some (pre ++ p, body, rest)
    | None => None
    end.
Proof.
  induction pre as [|c pre IH]; intros H.
  - simpl. destruct (re_search s) as [[[p body] rest]|]; reflexivity.
  - pose proof (H 0 ltac:(simpl; lia)) as H0.
    change (strip_prefix fence_open (c :: pre ++ s) = None) in H0.
    change ((c :: pre) ++ s) with (c :: pre ++ s). cbn [re_search].
    rewrite H0, IH by (eapply absent_before_tail, H).
    destruct (re_search s) as [[[p body] rest]|]; reflexivity.
Qed.

(** A fenced block anywhere gives a match. *)
Lemma re_search_complete (a body b : str) :
  re_search (a ++ fence_open ++ body ++ fence_close ++ b) <> None.
Proof.
  induction a as [|c a IH].
  - destruct (split_first_occurs fence_close body b) as (x & y & E & _).
    cbn [app]. rewrite (re_search_here _ _ x y (strip_prefix_app _ _) E). discriminate.
  - change ((c :: a) ++ fence_open ++ body ++ fence_close ++ b)
      with (c :: a ++ fence_open ++ body ++ fence_close ++ b).
    cbn [re_search].
    destruct (strip_prefix fence_open _) as [after|];
      [destruct (split_first fence_close after) as [[x y]|]; [discriminate|]|];
      destruct (re_search (a ++ fence_open ++ body ++ fence_close ++ b)) as [[[p d] r]|];
      try discriminate; contradiction.
Qed.

Lemma assembled_search (pre body rest : str) :
  (forall a b, pre <> a ++ fence_open ++ b) ->
  (forall a b, body <> a ++ fence_close ++ b) ->
  re_search (pre ++ fence_open ++ body ++ fence_close ++ rest) = Some (pre, body, rest).
Proof.
  intros Hpre Hbody.
  rewrite (re_search_skip pre _ (absent_before_no_occurrence pre _ Hpre)).
  rewrite (re_search_here _ (body ++ fence_close ++ rest) body rest).
  - rewrite app_nil_r. reflexivity.
  - apply strip_prefix_app.
  - apply body_then_close, split_first_absent_None, Hbody.
Qed.

(** The sections the extractor sees are those the document was put
    together from. *)
Lemma assembled_sections (segs : list (str * str)) (tail content : str) :
  assembled segs tail content -> sections content = (segs, tail).
Proof.
  induction 1 as [tail H | pre body segs tail rest Hpre Hbody _ IH].
  - rewrite sections_eq.
    destruct (re_search tail) as [[[p d] r]|] eqn:E; [|reflexivity].
    apply re_search_Some in E as (E & _). rewrite mermaid_block_fences in E.
    exfalso. apply (H p d r). rewrite E, <- !app_assoc. reflexivity.
  - rewrite sections_eq, (assembled_search pre body rest Hpre Hbody), IH. reflexivity.
Qed.

(** Every document is put together from its sections. *)
Lemma sections_assembled (content : str) :
  assembled (sections content).1 (sections content).2 content.
Proof.
  induction content as [s E | s pre body rest E IH] using document_ind;
    rewrite sections_eq, E.
  - apply assembled_tail. intros a body b Hs.
    apply (re_search_complete a body b). rewrite <- Hs. exact E.
  - destruct (sections rest) as [segs tail]. cbn [fst snd] in *.
    apply re_search_Some in E as (Hs & Hc & Hpre).
    rewrite mermaid_block_fences, <- !app_assoc in Hs. rewrite Hs.
    apply assembled_block; [| |exact IH].
    + intros a b Hp.
      assert (Hlt : length a < length pre)
        by (rewrite Hp, !length_app, length_fence_open; lia).
      specialize (Hpre (length a) Hlt). rewrite Hs, Hp in Hpre.
      rewrite <- !app_assoc, drop_app_length, strip_prefix_app in Hpre. discriminate.
    + intros a b Hb. apply split_first_Some in Hc as [_ Habs].
      assert (Hlt : length a < length body)
        by (rewrite Hb, !length_app, length_fence_close; lia).
      specialize (Habs (length a) Hlt). rewrite Hb in Habs.
      rewrite <- !app_assoc, drop_app_length, strip_prefix_app in Habs. discriminate.
Qed.

(** ** Counting image references *)

Lemma count_starts_lacks (c0 : N) (p a W : str) :
  lacks c0 a = true -> count_starts (c0 :: p) (a ++ W) = count_starts (c0 :: p) W.
Proof.
  induction a as [|x a IH]; intros H; [reflexivity|].
  cbn [lacks forallb] in H. apply andb_true_iff in H as [Hx Ha].
  cbn [app count_starts strip_prefix]. rewrite N.eqb_sym.
  destruct (x =? c0)%N; [discriminate|]. apply IH, Ha.
Qed.

Lemma count_starts_app_mark (a b : str) :
  (forall c b', b = c :: b' -> c <> 91%N) ->
  count_starts image_mark (a ++ b) = count_starts image_mark a + count_starts image_mark b.
Proof.
  change image_mark with [33; 91]%N. intros Hb.
  induction a as [|x a IH]; [reflexivity|].
  cbn [app count_starts]. rewrite IH.
  assert (E : match strip_prefix [33; 91]%N (x :: a ++ b) with Some _ => 1 | None => 0 end
              = match strip_prefix [33; 91]%N (x :: a) with Some _ => 1 | None => 0 end).
  { cbn [strip_prefix]. destruct (33 =? x)%N; [|reflexivity].
    destruct a as [|y a]; [|cbn [app]; destruct (91 =? y)%N; reflexivity].
    cbn [app]. destruct b as [|c b']; [reflexivity|].
    destruct (N.eqb_spec 91 c) as [<-|_]; [|reflexivity].
    exfalso. exact (Hb _ _ eq_refl eq_refl). }
  rewrite E. lia.
Qed.

Lemma str_of_nat_no_bang (n : nat) : lacks 33%N (str_of_nat n) = true.
Proof.
  unfold str_of_nat. generalize (Nat.to_uint n) as d.
  induction d; simpl; try reflexivity; exact IHd.
Qed.

Lemma count_starts_image_ref (i k : nat) (W : str) :
  count_starts image_mark (image_ref i (png_name k) ++ W)
  = 1 + count_starts image_mark W.
Proof.
  change (image_ref i (png_name k) ++ W)
    with (33%N :: (91%N :: lit "Diagram " ++ str_of_nat (i + 1) ++ lit "]("
                     ++ png_name k ++ lit ")") ++ W).
  change image_mark with [33; 91]%N.
  cbn [count_starts]. f_equal.
  apply count_starts_lacks. unfold png_name.
  change (91%N :: lit "Diagram " ++ str_of_nat (i + 1) ++ lit "]("
            ++ (lit "/tmp/diagram_" ++ str_of_nat k ++ lit ".png") ++ lit ")")
    with ((91%N :: lit "Diagram ") ++ str_of_nat (i + 1) ++ lit "]("
            ++ (lit "/tmp/diagram_" ++ str_of_nat k ++ lit ".png") ++ lit ")").
  rewrite !lacks_app, !str_of_nat_no_bang. reflexivity.
Qed.

Lemma count_starts_weave_refs (segs : list (str * str)) (tail : str) : forall i,
  count_starts image_mark (weave (fun i _ => image_ref i (png_name (i + 1))) i segs tail)
  = length segs + count_outside segs tail.
Proof.
  induction segs as [|[pre body] segs IH]; intros i; [reflexivity|].
  cbn [weave count_outside length]. rewrite count_starts_app_mark.
  - rewrite count_starts_image_ref, IH. lia.
  - intros c b' H. destruct (image_ref_bang i (png_name (i + 1))) as [R HR].
    rewrite HR in H. injection H as <- _. discriminate.
Qed.

Lemma extract_nil_no_block (s : str) :
  extract_mermaid_diagrams s = [] ->
  forall a body b, s <> a ++ fence_open ++ body ++ fence_close ++ b.
Proof.
  intros H a body b Hs. rewrite extract_mermaid_diagrams_eq in H.
  destruct (re_search s) as [[[p d] r]|] eqn:E; [discriminate|].
  apply (re_search_complete a body b). rewrite <- Hs. exact E.
Qed.

(** ** The script when every render call succeeds *)

(** C3, as amended. For every document put together from [n] fenced
    blocks and the text around them, when every render call of a run of
    [main] exits with status zero, [n] calls are made and the enhanced
    document is the input document with block number [i], for each of
    the [n] blocks in order, replaced by the image reference labelled
    [Diagram i+1] to [/tmp/diagram_(i+1).png]; the text around the
    blocks is kept, so the document holds exactly [n] image references
    more than that text already held; no fenced block remains. *)
Theorem main_all_rendered {World : Type}
    (subprocess_run : list str -> gmap str str -> World -> run_outcome * gmap str str * World)
    (st : State World) (content : str) (segs : list (str * str)) (tail : str) :
  assembled segs tail content ->
  files st !! input_file = Some content ->
  forallb exited_zero (main_outcomes subprocess_run st) = true ->
  exists st' enhanced,
    main subprocess_run st = Some st'
    /\ files st' !! enhanced_file = Some enhanced
    /\ length (main_outcomes subprocess_run st) = length segs
    /\ enhanced = weave (fun i _ => image_ref i (png_name (i + 1))) 0 segs tail
    /\ count_starts image_mark enhanced = length segs + count_outside segs tail
    /\ (forall a body b, enhanced <> a ++ fence_open ++ body ++ fence_close ++ b).
Proof.
  intros Hdoc Hin Hall. apply assembled_sections in Hdoc.
  destruct (main_enhanced subprocess_run content st Hin) as (st' & Hmain & Hfile).
  pose proof (length_main_outcomes subprocess_run content st Hin) as Hlen.
  pose proof (length_sections content) as Hn. rewrite Hdoc in Hn. cbn [fst] in Hn.
  rewrite <- Hlen, (rendered_all _ 1 Hall) in Hfile.
  set (n := length (main_outcomes subprocess_run st)) in *.
  pose proof (forallb_plain_png_names 1 n) as Hplain.
  assert (Hweave : create_enhanced_markdown content (png_name <$> seq 1 n)
                   = weave (fun i _ => image_ref i (png_name (i + 1))) 0 segs tail).
  { rewrite (create_enhanced_markdown_weave content _ Hplain), Hdoc. cbn [fst snd].
    apply weave_ext. intros j body Hj.
    unfold put_image. rewrite list_lookup_fmap, lookup_seq_lt by lia.
    cbn [fmap option_fmap option_map]. replace (1 + j) with (j + 1) by lia. reflexivity. }
  exists st', (create_enhanced_markdown content (png_name <$> seq 1 n)).
  split; [exact Hmain|]. split; [exact Hfile|]. split; [lia|]. split; [exact Hweave|].
  split; [rewrite Hweave; apply count_starts_weave_refs|].
  apply extract_nil_no_block.
  pose proof (length_extract_enhanced content (png_name <$> seq 1 n) Hplain) as H.
  rewrite length_fmap, length_seq in H. apply length_zero_iff_nil. lia.
Qed.

Lemma main_all_rendered_witness :
  exists st' enhanced,
    main render_ok (start_with two_blocks tt) = Some st'
    /\ files st' !! enhanced_file = Some enhanced
    /\ length (main_outcomes render_ok (start_with two_blocks tt))
       = length [(lit "# Doc" ++ [NL], lit "graph TD; A-->B");
                 ([NL] ++ lit "text" ++ [NL], lit "graph TD; C-->D")]
    /\ enhanced
       = weave (fun i _ => image_ref i (png_name (i + 1))) 0
           [(lit "# Doc" ++ [NL], lit "graph TD; A-->B");
            ([NL] ++ lit "text" ++ [NL], lit "graph TD; C-->D")] [NL]
    /\ count_starts image_mark enhanced
       = length [(lit "# Doc" ++ [NL], lit "graph TD; A-->B");
                 ([NL] ++ lit "text" ++ [NL], lit "graph TD; C-->D")]
         + count_outside [(lit "# Doc" ++ [NL], lit "graph TD; A-->B");
                          ([NL] ++ lit "text" ++ [NL], lit "graph TD; C-->D")] [NL]
    /\ (forall a body b, enhanced <> a ++ fence_open ++ body ++ fence_close ++ b).
Proof.
  apply (main_all_rendered render_ok (start_with two_blocks tt) two_blocks
           [(lit "# Doc" ++ [NL], lit "graph TD; A-->B");
            ([NL] ++ lit "text" ++ [NL], lit "graph TD; C-->D")] [NL]).
  - change two_blocks
      with ((lit "# Doc" ++ [NL]) ++ fence_open ++ lit "graph TD; A-->B" ++ fence_close
            ++ ([NL] ++ lit "text" ++ [NL]) ++ fence_open ++ lit "graph TD; C-->D"
            ++ fence_close ++ [NL]).
    apply assembled_block;
      [ intros a b H; apply (split_first_None fence_open a b); rewrite <- H;
        vm_compute; reflexivity
      | intros a b H; apply (split_first_None fence_close a b); rewrite <- H;
        vm_compute; reflexivity
      | ].
    apply assembled_block;
      [ intros a b H; apply (split_first_None fence_open a b); rewrite <- H;
        vm_compute; reflexivity
      | intros a b H; apply (split_first_None fence_close a b); rewrite <- H;
        vm_compute; reflexivity
      | ].
    apply assembled_tail. intros a body b H.
    apply (split_first_None fence_open a (body ++ fence_close ++ b)). rewrite <- H.
    vm_compute; reflexivity.
  - vm_compute; reflexivity.
  - vm_compute; reflexivity.
Defined.

(** C3 as stated fails: a document with one block that already holds an
    image reference has two image references after the run, not one. *)
Lemma main_all_rendered_counterexample :
  length (extract_mermaid_diagrams with_logo) = 1
  /\ forallb exited_zero (main_outcomes render_ok (start_with with_logo tt)) = true
  /\ (fun st => files st !! enhanced_file) <$> main render_ok (start_with with_logo tt)
     = Some (Some (lit "![Logo](logo.png)" ++ [NL] ++ lit "![Diagram 1](/tmp/diagram_1.png)"))
  /\ count_starts image_mark
       (lit "![Logo](logo.png)" ++ [NL] ++ lit "![Diagram 1](/tmp/diagram_1.png)")
     = 2.
Proof. repeat split; vm_compute; reflexivity. Qed.
